(** * The project store of [src/app.ts] and its drag-and-drop target

    A shallow embedding of the reactive store ([State], [ProjectState]),
    of the observer protocol around it, of [validate], of the form
    ([ProjectInput]) and of the drag-and-drop handlers of [ProjectList].

    JavaScript objects have identity and are shared by reference, so the
    embedding keeps an explicit heap: [Project] objects and arrays live in
    two typed stores and are named by their index.  Nothing is ever freed
    (garbage collection cannot be observed), so allocation appends. *)

From Stdlib Require Import Floats.PrimFloat.
From Stdlib Require Floats.SpecFloat Floats.FloatAxioms Numbers.Cyclic.Int63.Uint63.
From stdpp Require Import base option list strings.

(** ** Data model *)

(** [enum ProjectStatus { Active, Finished }] *)
Inductive ProjectStatus := Active | Finished.

#[global] Instance ProjectStatus_eq_dec : EqDecision ProjectStatus.
Proof. solve_decision. Defined.

(** A JavaScript [number] is an IEEE 754 binary64 value. *)
Abbreviation number := float.

(** [class Project]: five public, mutable fields. *)
Record Project := Project_new {
  id : string;
  title : string;
  description : string;
  people : number;
  status : ProjectStatus;
}.

(** [project.status = s] *)
Definition set_status (s : ProjectStatus) (p : Project) : Project :=
  Project_new (id p) (title p) (description p) (people p) s.

(** A slot of a JavaScript array of [Project]s: a reference to a [Project]
    object, or a hole ([None], read as [undefined]). *)
Abbreviation slot := (option nat).

(** The heap: [objs] holds the [Project] objects, [arrs] the arrays.  A
    reference is an index into the matching store. *)
Record Heap := {
  objs : list Project;
  arrs : list (list slot);
}.

(** How a call ends: it returns, or it throws. *)
Inductive Completion := Normal | Throw.

(** ** Observers

    [type Listener<T> = (items: T[]) => void].  What a listener does to the
    store can only go through the array it is handed, so a listener is
    modelled by what it decides to do after looking at the heap and at the
    reference [items] it received: the writes it performs, and whether it
    then returns or throws.  Listeners are taken not to call back into the
    store (section 5 of the specification). *)
Inductive Mutation :=
  (** any in-place change of the received array: [push], [pop], [splice],
      [sort], [reverse], [items[i] = x], [items.length = n], ... *)
  | ArrayUpdate (f : list slot → list slot)
  (** [items.push(new Project(...))] *)
  | PushNew (p : Project)
  (** a new array made from the received one, which is left alone:
      [items.filter(...)], [items.slice()], [items.concat(...)], ... *)
  | NewArray (f : list slot → list slot)
  (** any write to the fields of the element at index [i]:
      [items[i].status = s], [items[i].title = t], ... *)
  | ElementUpdate (i : nat) (g : Project → Project).

Definition Listener := Heap → nat → list Mutation * Completion.

(** [items[i]] *)
Definition element (h : Heap) (items i : nat) : option nat :=
  cells ← arrs h !! items; c ← cells !! i; c.

Definition mutate (items : nat) (h : Heap) (m : Mutation) : Heap :=
  match m with
  | ArrayUpdate f => {| objs := objs h; arrs := alter f items (arrs h) |}
  | PushNew p =>
      {| objs := objs h ++ [p];
         arrs := alter (λ cells, cells ++ [Some (length (objs h))]) items (arrs h) |}
  | NewArray f =>
      {| objs := objs h;
         arrs := arrs h ++ [f (default [] (arrs h !! items))] |}
  | ElementUpdate i g =>
      match element h items i with
      | Some l => {| objs := alter g l (objs h); arrs := arrs h |}
      | None => h
      end
  end.

(** One invocation of a listener, as the trace records it: who was called,
    with which array, the heap at the moment of the call, and how the call
    ended. *)
Record Call := {
  callee : Listener;
  items : nat;
  seen : Heap;
  outcome : Completion;
}.

(** ** [class State<T>] and [class ProjectState] *)

(** The fields of a [ProjectState] object.  [listeners] is never handed
    out, so it is kept as a value; [projects] is a reference into [arrs]. *)
Record ProjectState := {
  listeners : list Listener;
  projects : nat;
}.

(** A store: one [ProjectState] object together with the heap it lives in. *)
Record Store := {
  heap : Heap;
  this : ProjectState;
}.

(** [a.slice()]: a fresh array with the same slots. *)
Definition slice (a : nat) (h : Heap) : option (nat * Heap) :=
  cells ← arrs h !! a;
  Some (length (arrs h), {| objs := objs h; arrs := arrs h ++ [cells] |}).

(** [listenerFn(this.projects.slice())] *)
Definition call_listener (prjs : nat) (listenerFn : Listener) (h : Heap)
  : option (Heap * Call) :=
  '(copy, h1) ← slice prjs h;
  Some (foldl (mutate copy) h1 (listenerFn h1 copy).1,
        {| callee := listenerFn; items := copy; seen := h1;
           outcome := (listenerFn h1 copy).2 |}).

(** [for (const listenerFn of this.listeners) { listenerFn(this.projects.slice()); }]
    There is no [try]: when a listener throws the loop is left, the
    listeners after it are not called, and the exception leaves the method
    that was notifying.  The trace then ends with the call that threw. *)
Fixpoint for_listeners (prjs : nat) (ls : list Listener) (h : Heap)
  : option (Heap * list Call) :=
  match ls with
  | [] => Some (h, [])
  | listenerFn :: rest =>
      '(h1, c) ← call_listener prjs listenerFn h;
      match outcome c with
      | Throw => Some (h1, [c])
      | Normal =>
          '(h2, cs) ← for_listeners prjs rest h1;
          Some (h2, c :: cs)
      end
  end.

(** How a notifying method ends, read off its trace: it throws exactly when
    its last call threw. *)
Definition completion_of (cs : list Call) : Completion :=
  default Normal (outcome <$> last cs).

(** [State.addListener] *)
Definition addListener (listenerFn : Listener) (st : Store) : Store :=
  {| heap := heap st;
     this := {| listeners := listeners (this st) ++ [listenerFn];
                projects := projects (this st) |} |}.

(** [ProjectState.updateListeners] *)
Definition updateListeners (self : ProjectState) (h : Heap)
  : option (Store * list Call) :=
  '(h', cs) ← for_listeners (projects self) (listeners self) h;
  Some ({| heap := h'; this := self |}, cs).

(** [ProjectState.addProject].  [rnd] is the string that
    [Math.random().toString()] yields in this call.  The result is the store
    when the call ends and the calls it made; the call ends by throwing when
    a listener did ([completion_of]). *)
Definition addProject (rnd : string) (title description : string)
    (numOfPeople : number) (st : Store) : option (Store * list Call) :=
  let h := heap st in
  let newProject := Project_new rnd title description numOfPeople Active in
  cells ← arrs h !! projects (this st);
  let h1 := {| objs := objs h ++ [newProject];
               arrs := <[projects (this st) := cells ++ [Some (length (objs h))]]> (arrs h) |} in
  '(h', cs) ← for_listeners (projects (this st)) (listeners (this st)) h1;
  Some ({| heap := h'; this := this st |}, cs).

(** [cells.find(prj => prj.id === projectId)]: [Some (Some l)] when the
    first match is the object [l], [Some None] for [undefined], and [None]
    when the callback throws (a hole makes [prj.id] a TypeError). *)
Fixpoint find_id (os : list Project) (projectId : string) (cells : list slot)
  : option (option nat) :=
  match cells with
  | [] => Some None
  | None :: _ => None
  | Some l :: rest =>
      prj ← os !! l;
      if bool_decide (id prj = projectId) then Some (Some l)
      else find_id os projectId rest
  end.

(** [ProjectState.moveProject] *)
Definition moveProject (projectId : string) (newStatus : ProjectStatus)
    (st : Store) : option (Store * list Call) :=
  let h := heap st in
  cells ← arrs h !! projects (this st);
  project ← find_id (objs h) projectId cells;
  match project with
  | Some l =>
      prj ← objs h !! l;
      if bool_decide (status prj ≠ newStatus) then
        updateListeners (this st)
          {| objs := <[l := set_status newStatus prj]> (objs h); arrs := arrs h |}
      else Some (st, [])
  | None => Some (st, [])
  end.

(** ** The process: the static side of [ProjectState] *)

(** [instances] holds every [ProjectState] object constructed so far;
    [instance] is the static field [ProjectState.instance], [None] while it
    is still [undefined]. *)
Record Process := {
  mem : Heap;
  instances : list ProjectState;
  instance : option nat;
}.

(** The process before the module body has run. *)
Definition boot : Process :=
  {| mem := {| objs := []; arrs := [] |}; instances := []; instance := None |}.

(** [new ProjectState()]: the private constructor runs the field
    initialisers [listeners = []] and [projects = []]. *)
Definition construct (P : Process) : nat * Process :=
  (length (instances P),
   {| mem := {| objs := objs (mem P); arrs := arrs (mem P) ++ [[]] |};
      instances := instances P ++
        [{| listeners := []; projects := length (arrs (mem P)) |}];
      instance := instance P |}).

(** [static getInstance()] *)
Definition getInstance (P : Process) : nat * Process :=
  match instance P with
  | Some r => (r, P)
  | None =>
      let '(r, P1) := construct P in
      (r, {| mem := mem P1; instances := instances P1; instance := Some r |})
  end.

(** [const projectState = ProjectState.getInstance();] (line 74) *)
Definition loaded : Process := (getInstance boot).2.

(** The constructor is private, so all a client of the class can do is call
    [getInstance] and the three public methods on what it returns. *)
Inductive Request :=
  | GetInstance
  | AddListener (listenerFn : Listener)
  | AddProject (rnd title description : string) (numOfPeople : number)
  | MoveProject (projectId : string) (newStatus : ProjectStatus).

(** Run a method of the object [r] and write its fields back.  [None] is
    an exception of the store's own code.  A call that a listener's
    exception ends has changed the store as far as it got; what is given is
    the process the call leaves, which is what a caller that catches the
    exception goes on with. *)
Definition on_instance (r : nat) (method : Store → option (Store * list Call))
    (P : Process) : option Process :=
  self ← instances P !! r;
  '(st, _) ← method {| heap := mem P; this := self |};
  Some {| mem := heap st; instances := <[r := this st]> (instances P);
          instance := instance P |}.

(** [ProjectState.getInstance()], or [ProjectState.getInstance().m(...)].
    The result is the reference [getInstance] returned. *)
Definition serve (q : Request) (P : Process) : option (nat * Process) :=
  let '(r, P1) := getInstance P in
  match q with
  | GetInstance => Some (r, P1)
  | AddListener listenerFn =>
      pair r <$> on_instance r (λ st, Some (addListener listenerFn st, [])) P1
  | AddProject rnd title description numOfPeople =>
      pair r <$> on_instance r (addProject rnd title description numOfPeople) P1
  | MoveProject projectId newStatus =>
      pair r <$> on_instance r (moveProject projectId newStatus) P1
  end.

Fixpoint serve_all (qs : list Request) (P : Process)
  : option (list nat * Process) :=
  match qs with
  | [] => Some ([], P)
  | q :: rest =>
      '(r, P1) ← serve q P;
      '(rs, P2) ← serve_all rest P1;
      Some (r :: rs, P2)
  end.

(** ** The drop target: [ProjectList.dragOverHandler] *)

(** The parts of the platform's [DataTransfer] and [DragEvent] the handler
    reads or writes. *)
Record DataTransfer := {
  types : list string;
  effectAllowed : string;
}.

Record DragEvent := {
  dataTransfer : option DataTransfer;
  defaultPrevented : bool;
}.

(** [private type: 'active' | 'finished'] *)
Inductive ListType := active | finished.

(** A [ProjectList]: its [type], and the class list of the [ul] that
    [this.element.querySelector('ul')] finds ([None] when there is none). *)
Record ProjectList := {
  type : ListType;
  ul : option (list string);
}.

(** What a handler runs in: the process, the list it is bound to and the
    event it was given. *)
Record World := {
  store : Process;
  target : ProjectList;
  event : DragEvent;
}.

(** [event.preventDefault()] on a cancelable event *)
Definition preventDefault (e : DragEvent) : DragEvent :=
  {| dataTransfer := dataTransfer e; defaultPrevented := true |}.

(** [classList.add(token)]: a token list holds each token once. *)
Definition classList_add (token : string) (cl : list string) : list string :=
  if decide (token ∈ cl) then cl else cl ++ [token].

(** [dragOverHandler(event)].  [querySelector('ul')!] only asserts that the
    [ul] is there: without one, reading [classList] of [null] throws after
    [preventDefault] has run. *)
Definition dragOverHandler (w : World) : World * Completion :=
  match dataTransfer (event w) with
  | Some dt =>
      if bool_decide (head (types dt) = Some "text/plain") then
        let w1 := {| store := store w; target := target w;
                     event := preventDefault (event w) |} in
        match ul (target w) with
        | Some listEl =>
            ({| store := store w1;
                target := {| type := type (target w);
                             ul := Some (classList_add "droppable" listEl) |};
                event := event w1 |}, Normal)
        | None => (w1, Throw)
        end
      else (w, Normal)
  | None => (w, Normal)
  end.

(** ** Reading the store *)

(** The [Project] values behind a list of slots. *)
Definition deref (h : Heap) (cells : list slot) : list Project :=
  omap (λ c : slot, l ← c; objs h !! l) cells.

(** The array [a] as a list of [Project] values. *)
Definition contents (h : Heap) (a : nat) : list Project :=
  from_option (deref h) [] (arrs h !! a).

(** The store's collection, [this.projects]. *)
Definition collection (st : Store) : list Project :=
  contents (heap st) (projects (this st)).

(** The references held by [this.projects], in order. *)
Definition slots (st : Store) : option (list slot) :=
  arrs (heap st) !! projects (this st).

(** What a listener was shown when it was called. *)
Definition snapshot (c : Call) : list Project :=
  contents (seen c) (items c).

(** ** What it means to have been notified *)

(** The heap a call leaves: what its callee wrote, applied to what it was
    shown. *)
Definition left_by (c : Call) : Heap :=
  foldl (mutate (items c)) (seen c) (callee c (seen c) (items c)).1.

(** [invocation a h c]: the call [c] is its callee invoked in the heap [h]
    with a new array that holds the slots of the array [a]; it ended the way
    the callee ends there. *)
Definition invocation (a : nat) (h : Heap) (c : Call) : Prop :=
  ∃ cells, arrs h !! a = Some cells ∧
    items c = length (arrs h) ∧
    seen c = {| objs := objs h; arrs := arrs h ++ [cells] |} ∧
    outcome c = (callee c (seen c) (items c)).2.

(** [notified a h ls cs h']: starting in the heap [h], the listeners [ls]
    were invoked one after the other in list order, each once and each with
    its own copy of the array [a], every one in the heap the one before it
    left, until the list was through or one of them threw; [cs] are the
    calls in the order they were made and [h'] is the heap the last one
    left.  Listeners after one that threw were not invoked. *)
Inductive notified (a : nat) : Heap → list Listener → list Call → Heap → Prop :=
  | notified_done h : notified a h [] [] h
  | notified_next h listenerFn rest c cs h' :
      invocation a h c → callee c = listenerFn → outcome c = Normal →
      notified a (left_by c) rest cs h' →
      notified a h (listenerFn :: rest) (c :: cs) h'
  | notified_thrown h listenerFn rest c :
      invocation a h c → callee c = listenerFn → outcome c = Throw →
      notified a h (listenerFn :: rest) [c] (left_by c).

(** A store is well formed when [this.projects] is an array without holes
    whose slots refer to distinct, existing [Project] objects. *)
Definition good_slot (h : Heap) (c : slot) : Prop :=
  match c with Some l => l < length (objs h) | None => False end.

Definition wf_array (h : Heap) (a : nat) : Prop :=
  match arrs h !! a with
  | Some cells => Forall (good_slot h) cells ∧ NoDup cells
  | None => False
  end.

Definition wf (st : Store) : Prop := wf_array (heap st) (projects (this st)).

(** A listener is read-only on projects when it never writes to the fields
    of an element; it may still do anything to the array it received. *)
Definition array_only (m : Mutation) : Prop :=
  match m with ElementUpdate _ _ => False | _ => True end.

Definition readonly (listenerFn : Listener) : Prop :=
  ∀ h a, Forall array_only (listenerFn h a).1.

(** A fresh store, as the constructor leaves it. *)
Definition new_store : Store :=
  {| heap := {| objs := []; arrs := [[]] |};
     this := {| listeners := []; projects := 0 |} |}.

(** The content kind the transfer channel declares, the way the handler
    probes it: [event.dataTransfer.types[0]], if there is one. *)
Definition declared_kind (e : DragEvent) : option string :=
  dt ← dataTransfer e; head (types dt).

(** The listener [ProjectList.configure] registers with the store: it
    filters the projects of its own status into a new array, keeps that one
    in [assignedProjects] and renders it.  [filter] skips holes. *)
Definition relevant (h : Heap) (self : ProjectList) (c : slot) : bool :=
  match c ≫= (objs h !!.) with
  | Some prj =>
      match type self with
      | active => bool_decide (status prj = Active)
      | finished => bool_decide (status prj = Finished)
      end
  | None => false
  end.

Definition ProjectList_listener (self : ProjectList) : Listener := λ h _,
  ([NewArray (List.filter (relevant h self))], Normal).

(** ** Runs *)

(** [addListener] once per listener, in list order. *)
Definition register (ls : list Listener) (st : Store) : Store :=
  foldl (λ st listenerFn, addListener listenerFn st) st ls.

(** The arguments of one [addProject] call, with the string its
    [Math.random().toString()] yields. *)
Record NewProject := {
  draw : string;
  new_title : string;
  new_description : string;
  new_people : number;
}.

(** A sequence of [addProject] calls. *)
Fixpoint addProjects (calls : list NewProject) (st : Store) : option Store :=
  match calls with
  | [] => Some st
  | c :: rest =>
      '(st1, _) ← addProject (draw c) (new_title c) (new_description c)
                    (new_people c) st;
      addProjects rest st1
  end.

(** ** Some listeners *)

(** [items => { console.log(items.length); }]: a listener that only looks. *)
Definition reader : Listener := λ _ _, ([], Normal).

(** [items => { items.length = 0; items.push(new Project('x', 'X', 'x', 1, Finished)); }] *)
Definition scribbler : Listener := λ _ _,
  ([ArrayUpdate (λ _, []); PushNew (Project_new "x" "X" "x" 1 Finished)],
   Normal).

(** [items => { items[0].status = ProjectStatus.Finished; }] *)
Definition finisher : Listener := λ _ _,
  ([ElementUpdate 0 (set_status Finished)], Normal).

(** [items => { items[0].title = 'X'; }] *)
Definition retitler : Listener := λ _ _,
  ([ElementUpdate 0 (λ p, Project_new (id p) "X" (description p) (people p)
                            (status p))], Normal).

(** [items => { items[1].status = ProjectStatus.Finished; }] *)
Definition second_finisher : Listener := λ _ _,
  ([ElementUpdate 1 (set_status Finished)], Normal).

(** [items => { throw new Error(); }] *)
Definition thrower : Listener := λ _ _, ([], Throw).

(** The store as the module body leaves it (lines 343 and 344): the two
    lists have registered their listeners. *)
Definition app_store : Store :=
  register [ProjectList_listener {| type := active; ul := Some [] |};
            ProjectList_listener {| type := finished; ul := Some [] |}]
    new_store.

(** ** What holds while the process runs *)

(** Once [getInstance] has run there is one [ProjectState] object, the
    static field refers to it, and it is well formed. *)
Definition singleton (P : Process) : Prop :=
  instance P = Some 0 ∧
  ∃ self, instances P = [self] ∧ wf {| heap := mem P; this := self |}.

(** ** Comparing heaps *)

(** [grows a h h']: going from [h] to [h'], the array [a] kept its slots
    and no object or array disappeared. *)
Definition grows (a : nat) (h h' : Heap) : Prop :=
  arrs h' !! a = arrs h !! a ∧
  length (objs h) ≤ length (objs h') ∧
  length (arrs h) ≤ length (arrs h').

(** [keeps h h']: every object of [h] is still there, with the same fields. *)
Definition keeps (h h' : Heap) : Prop := objs h `prefix_of` objs h'.

(** ** Validation: [validate] *)

(** [value: string | number] *)
Inductive Value := Str (s : string) | Num (n : number).

(** [interface Validatable].  An optional field is [None] when it is left
    out. *)
Record Validatable := {
  value : Value;
  required : option bool;
  minLength : option number;
  maxLength : option number;
  min : option number;
  max : option number;
}.

(** ** JavaScript strings

    A JavaScript string is a sequence of UTF-16 code units.  A Rocq string
    is a sequence of bytes, and stands here for the JavaScript string whose
    UTF-8 form it is, which is also what a string literal in this file
    holds.  [code_points] reads the characters off the bytes: one, two,
    three or four bytes a character, and U+FFFD for a byte that starts no
    character. *)
Definition continuation (b : N) : bool := ((128 <=? b) && (b <? 192))%N.

Fixpoint code_points (s : string) : list N :=
  match s with
  | EmptyString => []
  | String c0 s1 =>
      let b0 := Ascii.N_of_ascii c0 in
      if (b0 <? 128)%N then b0 :: code_points s1
      else
        match s1 with
        | EmptyString => [65533%N]
        | String c1 s2 =>
            let b1 := Ascii.N_of_ascii c1 in
            if ((192 <=? b0) && (b0 <? 224))%N && continuation b1 then
              ((b0 - 192) * 64 + (b1 - 128))%N :: code_points s2
            else
              match s2 with
              | EmptyString => 65533%N :: code_points s1
              | String c2 s3 =>
                  let b2 := Ascii.N_of_ascii c2 in
                  if ((224 <=? b0) && (b0 <? 240))%N
                     && continuation b1 && continuation b2 then
                    ((b0 - 224) * 4096 + (b1 - 128) * 64 + (b2 - 128))%N
                      :: code_points s3
                  else
                    match s3 with
                    | EmptyString => 65533%N :: code_points s1
                    | String c3 s4 =>
                        let b3 := Ascii.N_of_ascii c3 in
                        if ((240 <=? b0) && (b0 <? 248))%N
                           && continuation b1 && continuation b2
                           && continuation b3 then
                          ((b0 - 240) * 262144 + (b1 - 128) * 4096
                           + (b2 - 128) * 64 + (b3 - 128))%N
                            :: code_points s4
                        else 65533%N :: code_points s1
                    end
              end
        end
  end.

(** The number of UTF-16 code units of a sequence of characters: two for a
    character beyond U+FFFF, one for any other. *)
Definition utf16_length (cps : list N) : nat :=
  foldr (λ c n, (if (c <? 65536)%N then 1 else 2) + n) 0 cps.

(** [s.length] *)
Definition js_length (s : string) : nat := utf16_length (code_points s).

(** What [String.prototype.trim] strips, the white space and the line
    terminators of ECMAScript: U+0009 to U+000D, U+0020, U+00A0, U+1680,
    U+2000 to U+200A, U+2028, U+2029, U+202F, U+205F, U+3000 and U+FEFF. *)
Definition is_white (c : N) : bool :=
  bool_decide (c ∈ [9; 10; 11; 12; 13; 32; 160; 5760; 8232; 8233; 8239;
                    8287; 12288; 65279]%N)
  || ((8192 <=? c) && (c <=? 8202))%N.

Fixpoint trimStart (cps : list N) : list N :=
  match cps with
  | [] => []
  | c :: rest => if is_white c then trimStart rest else cps
  end.

Fixpoint trimEnd (cps : list N) : list N :=
  match cps with
  | [] => []
  | c :: rest =>
      match trimEnd rest with
      | [] => if is_white c then [] else [c]
      | kept => c :: kept
      end
  end.

(** [s.trim()], as the characters that are left. *)
Definition trim (s : string) : list N := trimEnd (trimStart (code_points s)).

(** A string of white space only (the empty string included). *)
Definition blank (s : string) : bool := forallb is_white (code_points s).

(** [s.length], as the JavaScript number it is. *)
Definition length_number (s : string) : number :=
  PrimFloat.of_uint63 (Uint63.of_Z (Z.of_nat (js_length s))).

(** Two strings for the examples, written byte by byte: U+3000, the
    ideographic space (E3 80 80), and U+1F600, a character beyond U+FFFF
    (F0 9F 98 80). *)
Definition ideographic_space : string :=
  String (Ascii.ascii_of_nat 227)
    (String (Ascii.ascii_of_nat 128)
       (String (Ascii.ascii_of_nat 128) EmptyString)).

Definition grinning_face : string :=
  String (Ascii.ascii_of_nat 240)
    (String (Ascii.ascii_of_nat 159)
       (String (Ascii.ascii_of_nat 152)
          (String (Ascii.ascii_of_nat 128) EmptyString))).

(** [classList.remove(token)] *)
Definition classList_remove (token : string) (cl : list string) : list string :=
  filter (λ t, t ≠ token) cl.

(** [const projectState = ProjectState.getInstance();]: the reference the
    module keeps. *)
Definition projectState : nat := (getInstance boot).1.

(** The store behind [projectState], read out of the process. *)
Definition store_of (P : Process) : option Store :=
  self ← instances P !! projectState;
  Some {| heap := mem P; this := self |}.

(** A call [projectState.m(...)] from a handler: as [on_instance], and how
    the call ends, which is how its notification loop ends.  [None] is an
    exception of the store's own code. *)
Definition call_on_instance (r : nat)
    (method : Store → option (Store * list Call)) (P : Process)
  : option (Process * Completion) :=
  self ← instances P !! r;
  '(st, cs) ← method {| heap := mem P; this := self |};
  Some ({| mem := heap st; instances := <[r := this st]> (instances P);
           instance := instance P |}, completion_of cs).

(** [ProjectInput]: the [value] of the three inputs its constructor looked
    up ([None] where [querySelector] found nothing). *)
Record ProjectInput := {
  titleInputElement : option string;
  descriptionInputElement : option string;
  peopleInputElement : option string;
}.

(** What [submitHandler] runs in: the process, the form, and whether the
    submit event has had its default action cancelled. *)
Record Submission := {
  app : Process;
  input : ProjectInput;
  prevented : bool;
}.

(** [ProjectInput.clearFields]: three writes in a row; a missing input
    throws and leaves the later ones alone. *)
Definition clearFields (self : ProjectInput) : ProjectInput * Completion :=
  match titleInputElement self with
  | None => (self, Throw)
  | Some _ =>
      let s1 := {| titleInputElement := Some "";
                   descriptionInputElement := descriptionInputElement self;
                   peopleInputElement := peopleInputElement self |} in
      match descriptionInputElement self with
      | None => (s1, Throw)
      | Some _ =>
          let s2 := {| titleInputElement := Some "";
                       descriptionInputElement := Some "";
                       peopleInputElement := peopleInputElement self |} in
          match peopleInputElement self with
          | None => (s2, Throw)
          | Some _ =>
              ({| titleInputElement := Some "";
                  descriptionInputElement := Some "";
                  peopleInputElement := Some "" |}, Normal)
          end
      end
  end.

(** [ProjectList.dragLeaveHandler] *)
Definition dragLeaveHandler (w : World) : World * Completion :=
  match ul (target w) with
  | Some listEl =>
      ({| store := store w;
          target := {| type := type (target w);
                       ul := Some (classList_remove "droppable" listEl) |};
          event := event w |}, Normal)
  | None => (w, Throw)
  end.

(** [this.type === 'active' ? ProjectStatus.Active : ProjectStatus.Finished] *)
Definition status_of (t : ListType) : ProjectStatus :=
  match t with active => Active | finished => Finished end.

(** The parts of the platform the remaining code calls.  They are not part
    of this program and are taken as they come. *)
Section Platform.

(** [Number.prototype.toString] *)
Variable toString : number → string.
(** unary [+] applied to a string *)
Variable toNumber : string → number.
(** [DataTransfer.prototype.getData] *)
Variable transfer_getData : DataTransfer → string → string.

(** [value.toString()] *)
Definition value_toString (v : Value) : string :=
  match v with Str s => s | Num n => toString n end.

(** [validate]: five checks in a row, each guarded by the presence of its
    constraint and, for the last four, by the type of the value.
    [a >= b] is [PrimFloat.leb b a]. *)
Definition validate (validatableInput : Validatable) : bool :=
  let isValid := true in
  let isValid :=
    if default false (required validatableInput) then
      isValid &&
      negb (utf16_length (trim (value_toString (value validatableInput))) =? 0)
    else isValid in
  let isValid :=
    match minLength validatableInput, value validatableInput with
    | Some m, Str s => isValid && PrimFloat.leb m (length_number s)
    | _, _ => isValid
    end in
  let isValid :=
    match maxLength validatableInput, value validatableInput with
    | Some m, Str s => isValid && PrimFloat.leb (length_number s) m
    | _, _ => isValid
    end in
  let isValid :=
    match min validatableInput, value validatableInput with
    | Some m, Num n => isValid && PrimFloat.leb m n
    | _, _ => isValid
    end in
  let isValid :=
    match max validatableInput, value validatableInput with
    | Some m, Num n => isValid && PrimFloat.leb n m
    | _, _ => isValid
    end in
  isValid.

(** [ProjectInput.getData]: [None] when reading a missing input throws,
    [Some None] for [undefined] (after logging 'Error'), and the triple
    otherwise. *)
Definition getData (self : ProjectInput)
  : option (option (string * string * number)) :=
  title ← titleInputElement self;
  description ← descriptionInputElement self;
  people ← peopleInputElement self;
  let titleValidatable :=
    {| value := Str title; required := Some true; minLength := None;
       maxLength := None; min := None; max := None |} in
  let descriptionValidatable :=
    {| value := Str description; required := Some true;
       minLength := Some 5%float; maxLength := None; min := None;
       max := None |} in
  let peopleValidatable :=
    {| value := Num (toNumber people); required := Some true;
       minLength := None; maxLength := None; min := Some 1%float;
       max := Some 5%float |} in
  if negb (validate titleValidatable)
     || negb (validate descriptionValidatable)
     || negb (validate peopleValidatable)
  then Some None
  else Some (Some (title, description, toNumber people)).

(** [ProjectInput.submitHandler].  [rnd] is the string
    [Math.random().toString()] yields if [addProject] is reached; what is
    written to the console is left out.  An exception of a listener leaves
    [addProject] and the handler at once: the project is in the store and
    the fields are not cleared. *)
Definition submitHandler (rnd : string) (w : Submission)
  : Submission * Completion :=
  let w1 := {| app := app w; input := input w; prevented := true |} in
  match getData (input w) with
  | None => (w1, Throw)
  | Some None => (w1, Normal)
  | Some (Some (title, description, people)) =>
      match call_on_instance projectState
              (addProject rnd title description people) (app w) with
      | None => (w1, Throw)
      | Some (P, Throw) =>
          ({| app := P; input := input w; prevented := true |}, Throw)
      | Some (P, Normal) =>
          let '(cleared, completion) := clearFields (input w) in
          ({| app := P; input := cleared; prevented := true |}, completion)
      end
  end.

(** [ProjectList.dropHandler].  An exception of a listener leaves
    [moveProject] and the handler at once: the move is done and the class
    list is not touched. *)
Definition dropHandler (w : World) : World * Completion :=
  match dataTransfer (event w) with
  | None => (w, Throw)
  | Some dt =>
      let prjId := transfer_getData dt "text/plain" in
      match call_on_instance projectState
              (moveProject prjId (status_of (type (target w)))) (store w) with
      | None => (w, Throw)
      | Some (P, Throw) =>
          ({| store := P; target := target w; event := event w |}, Throw)
      | Some (P, Normal) =>
          match ul (target w) with
          | Some listEl =>
              ({| store := P;
                  target := {| type := type (target w);
                               ul := Some (classList_remove "droppable" listEl) |};
                  event := event w |}, Normal)
          | None =>
              ({| store := P; target := target w; event := event w |}, Throw)
          end
      end
  end.

End Platform.

(** ** Counting requests *)

(** The listeners a sequence of requests registers, in order. *)
Definition registered (qs : list Request) : list Listener :=
  omap (λ q, match q with AddListener l => Some l | _ => None end) qs.

(** The number of [addProject] calls in a sequence of requests. *)
Definition additions (qs : list Request) : nat :=
  length (omap (λ q, match q with
                     | AddProject rnd _ _ _ => Some rnd
                     | _ => None
                     end) qs).

(** [loosens v v']: [v] checks the same value as [v'] under some of the
    constraints of [v'], and no others. *)
Definition loosens (v v' : Validatable) : Prop :=
  value v = value v' ∧
  (default false (required v) = true → default false (required v') = true) ∧
  (∀ m, minLength v = Some m → minLength v' = Some m) ∧
  (∀ m, maxLength v = Some m → maxLength v' = Some m) ∧
  (∀ m, min v = Some m → min v' = Some m) ∧
  (∀ m, max v = Some m → max v' = Some m).

(** The collection of the store behind [projectState]. *)
Definition projects_of (P : Process) : option (list Project) :=
  collection <$> store_of P.

(** * Properties *)

(** ** What a listener can and cannot reach *)

Lemma grows_refl a h : grows a h h.
Proof. by repeat split. Qed.

Lemma grows_trans a h1 h2 h3 : grows a h1 h2 → grows a h2 h3 → grows a h1 h3.
Proof.
  intros (E1 & O1 & A1) (E2 & O2 & A2).
  repeat split; [congruence | lia | lia].
Qed.

Lemma keeps_refl h : keeps h h.
Proof. by unfold keeps. Qed.

Lemma keeps_trans h1 h2 h3 : keeps h1 h2 → keeps h2 h3 → keeps h1 h3.
Proof. unfold keeps. by etrans. Qed.

Lemma mutate_grows a copy h m :
  copy ≠ a → a < length (arrs h) → grows a h (mutate copy h m).
Proof.
  intros Hne Hlt. unfold grows. destruct m as [f | p | f | i g]; simpl.
  - rewrite list_lookup_alter_ne, length_alter by done. auto.
  - rewrite list_lookup_alter_ne, length_alter, length_app by done.
    split_and!; [done | lia | done].
  - rewrite lookup_app_l, length_app by done. split_and!; [done | done | lia].
  - destruct (element h copy i); simpl; [|auto].
    rewrite length_alter. auto.
Qed.

Lemma mutate_keeps copy h m : array_only m → keeps h (mutate copy h m).
Proof.
  unfold keeps. destruct m as [f | p | f | i g]; simpl; intros Hm.
  - done.
  - by apply prefix_app_r.
  - done.
  - done.
Qed.

Lemma mutations_grow a copy ms : ∀ h,
  copy ≠ a → a < length (arrs h) → grows a h (foldl (mutate copy) h ms).
Proof.
  induction ms as [|m ms IH]; intros h Hne Hlt; simpl.
  - apply grows_refl.
  - pose proof (mutate_grows a copy h m Hne Hlt) as G.
    eapply grows_trans; [exact G|]. apply IH; [done|].
    destruct G as (_ & _ & ?). lia.
Qed.

Lemma mutations_keep copy ms h :
  Forall array_only ms → keeps h (foldl (mutate copy) h ms).
Proof.
  intros Hms. revert h. induction Hms as [|m ms Hm _ IH]; intros h; simpl.
  - apply keeps_refl.
  - eapply keeps_trans; [by apply mutate_keeps | apply IH].
Qed.

(** Slicing hands out an array that is not the one sliced. *)
Lemma slice_fresh a h cells :
  arrs h !! a = Some cells →
  slice a h = Some (length (arrs h),
                    {| objs := objs h; arrs := arrs h ++ [cells] |}) ∧
  length (arrs h) ≠ a.
Proof.
  intros Ha. unfold slice. rewrite Ha. split; [done|].
  apply lookup_lt_Some in Ha. lia.
Qed.

Lemma slice_grows a h cells :
  arrs h !! a = Some cells →
  grows a h {| objs := objs h; arrs := arrs h ++ [cells] |}.
Proof.
  intros Ha. repeat split; simpl; [|lia|rewrite length_app; lia].
  rewrite lookup_app_l; [done|]. by eapply lookup_lt_Some.
Qed.

(** One call: it is made, the store's array is untouched, and the listener
    was shown a copy of it. *)
Lemma call_listener_spec a listenerFn h cells :
  arrs h !! a = Some cells →
  ∃ h' c, call_listener a listenerFn h = Some (h', c) ∧
    grows a h h' ∧
    callee c = listenerFn ∧
    items c ≠ a ∧
    arrs (seen c) !! items c = Some cells ∧
    objs (seen c) = objs h ∧
    invocation a h c ∧
    h' = left_by c ∧
    (readonly listenerFn → keeps h h').
Proof.
  intros Ha. destruct (slice_fresh a h cells Ha) as [Hs Hne].
  unfold call_listener. rewrite Hs. simpl.
  eexists _, _. split; [done|]. simpl. split_and!.
  - eapply grows_trans; [by apply slice_grows|].
    apply mutations_grow; [done|]. simpl. rewrite length_app.
    apply lookup_lt_Some in Ha. lia.
  - done.
  - done.
  - by rewrite lookup_app_r, Nat.sub_diag.
  - done.
  - by exists cells.
  - done.
  - intros Hro. by apply (mutations_keep _ _ {| objs := objs h |}).
Qed.

(** The whole loop: it ends, having invoked the listeners one by one in
    list order up to the first that throws; it never touches the store's own
    array, and shows every listener it calls the same slots. *)
Lemma for_listeners_spec a ls : ∀ h cells,
  arrs h !! a = Some cells →
  ∃ h' cs, for_listeners a ls h = Some (h', cs) ∧
    grows a h h' ∧
    notified a h ls cs h' ∧
    Forall (λ c, items c ≠ a ∧ arrs (seen c) !! items c = Some cells) cs ∧
    (Forall readonly ls → keeps h h' ∧ Forall (λ c, keeps h (seen c)) cs).
Proof.
  induction ls as [|listenerFn rest IH]; intros h cells Ha; simpl.
  - eexists _, _. split; [done|]. split_and!; auto using grows_refl.
    + constructor.
    + intros _. split; [apply keeps_refl | constructor].
  - destruct (call_listener_spec a listenerFn h cells Ha)
      as (h1 & c & -> & G1 & Hc & Hi & Hs & Ho & Hinv & -> & K1).
    simpl. destruct (outcome c) eqn:Hout.
    + destruct (IH (left_by c) cells)
        as (h2 & cs & -> & G2 & Hcs & Hall & K2).
      { destruct G1 as (-> & _). done. }
      simpl. eexists _, _. split; [done|]. split_and!.
      * by eapply grows_trans.
      * by eapply notified_next.
      * by constructor.
      * intros Hro. apply Forall_cons in Hro as [Hro1 Hro2].
        specialize (K1 Hro1). destruct (K2 Hro2) as [K3 K4]. split.
        -- by eapply keeps_trans.
        -- constructor.
           ++ unfold keeps. rewrite Ho. done.
           ++ eapply Forall_impl; [exact K4|]. intros c' Hc'. simpl in Hc'.
              by eapply keeps_trans.
    + eexists _, _. split; [done|]. split_and!.
      * done.
      * by eapply notified_thrown.
      * by repeat constructor.
      * intros Hro. apply Forall_cons in Hro as [Hro1 _]. split; [auto|].
        constructor; [|constructor]. unfold keeps. rewrite Ho. done.
Qed.

(** Reading a notification: the callees of the calls made are the first
    listeners of the list, in order; all of them when no call threw; and a
    call that threw is the last one. *)
Lemma notified_callees a h ls cs h' :
  notified a h ls cs h' →
  map callee cs `prefix_of` ls ∧
  (completion_of cs = Normal → map callee cs = ls) ∧
  (∀ i c, cs !! i = Some c → outcome c = Throw → S i = length cs).
Proof.
  induction 1 as [h | h l rest c cs h' Hinv Hc Hout Hn IH | h l rest c Hinv Hc Hout].
  - split_and!; [done | done |]. intros i c Hi. by rewrite lookup_nil in Hi.
  - destruct IH as (IH1 & IH2 & IH3). subst l. split_and!.
    + simpl. by apply prefix_cons.
    + intros Hn'. simpl. f_equal. apply IH2.
      unfold completion_of in *. destruct cs as [|c' cs]; [done|]. done.
    + intros [|i] c0 Hi Ht; simpl in *.
      * injection Hi as <-. congruence.
      * f_equal. by eapply IH3.
  - subst l. split_and!.
    + simpl. apply prefix_cons, prefix_nil.
    + unfold completion_of. simpl. congruence.
    + intros [|i] c0 Hi Ht; simpl in *; [done|]. by rewrite lookup_nil in Hi.
Qed.



(** ** Well-formed stores *)

Lemma good_slot_mono h h' c :
  length (objs h) ≤ length (objs h') → good_slot h c → good_slot h' c.
Proof. destruct c as [l|]; simpl; [lia | done]. Qed.

Lemma wf_array_grows a h h' : wf_array h a → grows a h h' → wf_array h' a.
Proof.
  unfold wf_array. intros Hwf (-> & Ho & _).
  destruct (arrs h !! a) as [cells|]; [|done].
  destruct Hwf as [Hg Hnd]. split; [|done].
  eapply Forall_impl; [exact Hg|]. intros c. by apply good_slot_mono.
Qed.

Lemma wf_slots st : wf st → ∃ cells,
  slots st = Some cells ∧ Forall (good_slot (heap st)) cells ∧ NoDup cells.
Proof.
  unfold wf, wf_array, slots. destruct (arrs (heap st) !! _); [|done].
  intros [? ?]. eauto.
Qed.

(** In a well-formed array, position [j] of the values is the object
    behind slot [j]. *)
Lemma deref_lookup h cells j :
  Forall (good_slot h) cells →
  deref h cells !! j = (c ← cells !! j; l ← c; objs h !! l).
Proof.
  intros Hg. revert j. induction Hg as [|c cells Hc _ IH]; intros j; [done|].
  destruct c as [l|]; [|done]. simpl in Hc.
  destruct (lookup_lt_is_Some_2 _ _ Hc) as [p Hp].
  unfold deref. simpl. rewrite Hp. destruct j as [|j]; simpl; [done|].
  apply IH.
Qed.

Lemma deref_length h cells :
  Forall (good_slot h) cells → length (deref h cells) = length cells.
Proof.
  induction 1 as [|c cells Hc _ IH]; [done|].
  destruct c as [l|]; [|done]. simpl in Hc.
  destruct (lookup_lt_is_Some_2 _ _ Hc) as [p Hp].
  unfold deref. simpl. rewrite Hp. simpl. f_equal. apply IH.
Qed.

(** Objects that are kept read the same. *)
Lemma deref_keeps h h' cells :
  Forall (good_slot h) cells → keeps h h' → deref h' cells = deref h cells.
Proof.
  intros Hg Hk. induction Hg as [|c cells Hc _ IH]; [done|].
  destruct c as [l|]; [|done]. simpl in Hc.
  destruct (lookup_lt_is_Some_2 _ _ Hc) as [p Hp].
  unfold deref in *. simpl.
  rewrite Hp, (prefix_lookup_Some _ _ _ _ Hp Hk). simpl. by f_equal.
Qed.

Lemma contents_keeps a h h' :
  wf_array h a → arrs h' !! a = arrs h !! a → keeps h h' →
  contents h' a = contents h a.
Proof.
  unfold wf_array, contents. intros Hwf -> Hk.
  destruct (arrs h !! a) as [cells|]; [|done]. simpl.
  destruct Hwf as [Hg _]. by apply deref_keeps.
Qed.

Lemma wf_collection st cells :
  slots st = Some cells → collection st = deref (heap st) cells.
Proof. unfold slots, collection, contents. by intros ->. Qed.

(** ** Looking a project up *)

(** [find] returns the first project whose id matches. *)
Lemma find_id_first h pid cells : ∀ before p after,
  Forall (good_slot h) cells →
  deref h cells = before ++ p :: after →
  Forall (λ q, id q ≠ pid) before →
  id p = pid →
  ∃ l, find_id (objs h) pid cells = Some (Some l) ∧
       objs h !! l = Some p ∧
       cells !! length before = Some (Some l).
Proof.
  intros before p after Hg. revert before.
  induction Hg as [|c cells Hc Hg IH]; intros before Hd Hb Hp.
  - by destruct before.
  - destruct c as [l|]; [|done]. simpl in Hc.
    destruct (lookup_lt_is_Some_2 _ _ Hc) as [q Hq].
    unfold deref in Hd. simpl in Hd. rewrite Hq in Hd. simpl in Hd.
    simpl. rewrite Hq. simpl. destruct before as [|b before]; simpl in *.
    + injection Hd as -> Hd. rewrite bool_decide_eq_true_2 by done. eauto.
    + injection Hd as -> Hd. apply Forall_cons in Hb as [Hb1 Hb2].
      rewrite bool_decide_eq_false_2 by done. by apply IH.
Qed.

(** ... and [undefined] when none does. *)
Lemma find_id_none h pid cells :
  Forall (good_slot h) cells →
  Forall (λ q, id q ≠ pid) (deref h cells) →
  find_id (objs h) pid cells = Some None.
Proof.
  induction 1 as [|c cells Hc Hg IH]; intros Hn; [done|].
  destruct c as [l|]; [|done]. simpl in Hc.
  destruct (lookup_lt_is_Some_2 _ _ Hc) as [q Hq].
  unfold deref in Hn. simpl in Hn. rewrite Hq in Hn. simpl in Hn.
  apply Forall_cons in Hn as [Hn1 Hn2].
  simpl. rewrite Hq. simpl. rewrite bool_decide_eq_false_2 by done.
  by apply IH.
Qed.

(** Either way the lookup returns on an array without holes. *)
Lemma find_id_cases h pid cells :
  Forall (good_slot h) cells →
  Forall (λ q, id q ≠ pid) (deref h cells) ∨
  ∃ before p after, deref h cells = before ++ p :: after ∧
    Forall (λ q, id q ≠ pid) before ∧ id p = pid.
Proof.
  intros Hg. induction (deref h cells) as [|q qs IH]; [by left|].
  destruct (decide (id q = pid)) as [Hq|Hq].
  - right. by exists [], q, qs.
  - destruct IH as [IH | (before & p & after & -> & Hb & Hp)].
    + left. by constructor.
    + right. exists (q :: before), p, after. split_and!; [done | | done].
      by constructor.
Qed.

(** ** Writing a status in place *)

Lemma deref_insert h A cells i l p' :
  Forall (good_slot h) cells → NoDup cells →
  cells !! i = Some (Some l) →
  deref {| objs := <[l := p']> (objs h); arrs := A |} cells
  = <[i := p']> (deref h cells).
Proof.
  intros Hg Hnd Hi.
  assert (Hg' : Forall (good_slot {| objs := <[l := p']> (objs h); arrs := A |}) cells).
  { eapply Forall_impl; [exact Hg|]. intros c. apply good_slot_mono.
    simpl. by rewrite length_insert. }
  assert (Hl : l < length (objs h)).
  { by apply (Forall_lookup_1 _ _ _ _ Hg Hi). }
  apply list_eq. intros j. rewrite (deref_lookup _ _ _ Hg'). simpl.
  destruct (decide (j = i)) as [->|Hne].
  - rewrite Hi. simpl. rewrite list_lookup_insert_eq by done.
    rewrite list_lookup_insert_eq; [done|].
    rewrite deref_length by done. by eapply lookup_lt_Some.
  - rewrite list_lookup_insert_ne by done. rewrite (deref_lookup _ _ _ Hg).
    destruct (cells !! j) as [[l'|]|] eqn:Hj; simpl; [|done|done].
    rewrite list_lookup_insert_ne; [done|]. intros ->.
    by apply Hne, (NoDup_lookup _ _ _ _ Hnd Hj Hi).
Qed.

(** ** A notification *)

Lemma updateListeners_spec self h :
  wf_array h (projects self) →
  ∃ st' cs, updateListeners self h = Some (st', cs) ∧
    this st' = self ∧
    slots st' = arrs h !! projects self ∧
    grows (projects self) h (heap st') ∧
    wf st' ∧
    notified (projects self) h (listeners self) cs (heap st') ∧
    Forall (λ c, items c ≠ projects self ∧
                 arrs (seen c) !! items c = arrs h !! projects self) cs ∧
    (Forall readonly (listeners self) →
       keeps h (heap st') ∧
       collection st' = contents h (projects self) ∧
       Forall (λ c, snapshot c = contents h (projects self)) cs).
Proof.
  intros Hwf. pose proof Hwf as Hwf0. unfold wf_array in Hwf.
  destruct (arrs h !! projects self) as [cells|] eqn:Ha; [|done].
  destruct Hwf as [Hg Hnd].
  destruct (for_listeners_spec (projects self) (listeners self) h cells Ha)
    as (h' & cs & Hrun & G & Hcs & Hall & K).
  unfold updateListeners. rewrite Hrun. simpl.
  eexists _, _. split; [done|]. unfold slots, wf, collection. simpl.
  split_and!; [done | | done | | done | done |].
  - destruct G as (-> & _). done.
  - by eapply wf_array_grows.
  - intros Hro. destruct (K Hro) as [K1 K2]. split_and!; [done | |].
    + apply contents_keeps; [done | by destruct G | done].
    + apply Forall_forall. intros c Hc.
      pose proof (proj1 (Forall_forall _ _) Hall c Hc) as [_ Hs].
      pose proof (proj1 (Forall_forall _ _) K2 c Hc) as Hk.
      unfold snapshot, contents. rewrite Hs, Ha. simpl.
      by apply deref_keeps.
Qed.

(** ** [addProject] *)

Lemma addProject_spec rnd t d n st cells :
  wf st → slots st = Some cells →
  let l := length (objs (heap st)) in
  let p := Project_new rnd t d n Active in
  ∃ st' cs, addProject rnd t d n st = Some (st', cs) ∧
    this st' = this st ∧
    slots st' = Some (cells ++ [Some l]) ∧
    wf st' ∧
    notified (projects (this st))
      {| objs := objs (heap st) ++ [p];
         arrs := <[projects (this st) := cells ++ [Some l]]> (arrs (heap st)) |}
      (listeners (this st)) cs (heap st') ∧
    Forall (λ c, items c ≠ projects (this st) ∧
                 arrs (seen c) !! items c = Some (cells ++ [Some l])) cs ∧
    (Forall readonly (listeners (this st)) →
       collection st' = collection st ++ [p] ∧
       Forall (λ c, snapshot c = collection st ++ [p]) cs).
Proof.
  intros Hwf Hs l p. unfold slots in Hs.
  destruct (wf_slots st Hwf) as (cells' & Hs' & Hg & Hnd).
  unfold slots in Hs'. rewrite Hs in Hs'. injection Hs' as <-.
  set (a := projects (this st)) in *.
  set (h1 := {| objs := objs (heap st) ++ [p];
                arrs := <[a := cells ++ [Some l]]> (arrs (heap st)) |}).
  assert (Ha1 : arrs h1 !! a = Some (cells ++ [Some l])).
  { simpl. apply list_lookup_insert_eq. by eapply lookup_lt_Some. }
  assert (Hg1 : Forall (good_slot h1) (cells ++ [Some l])).
  { apply Forall_app. split.
    - eapply Forall_impl; [exact Hg|]. intros c. apply good_slot_mono.
      simpl. rewrite length_app. lia.
    - constructor; [|done]. simpl. rewrite length_app. simpl. lia. }
  assert (Hwf1 : wf_array h1 a).
  { unfold wf_array. rewrite Ha1. split; [done|].
    apply NoDup_app. split_and!; [done | | apply NoDup_singleton].
    intros c Hc Hin. apply list_elem_of_singleton in Hin as ->.
    pose proof (proj1 (Forall_forall _ _) Hg _ Hc) as Hlt. simpl in Hlt.
    unfold l in Hlt. lia. }
  assert (Hd1 : contents h1 a = collection st ++ [p]).
  { unfold contents. rewrite Ha1. simpl. unfold deref.
    rewrite omap_app. simpl. rewrite lookup_app_r by done.
    unfold l. rewrite Nat.sub_diag. simpl. f_equal.
    unfold collection, contents. fold a. rewrite Hs. simpl.
    apply (deref_keeps (heap st) h1 cells Hg). by apply prefix_app_r. }
  destruct (updateListeners_spec {| listeners := listeners (this st); projects := a |} h1 Hwf1)
    as (st' & cs & Hrun & Hthis & Hsl & G & Hwf' & Hcs & Hall & K).
  unfold updateListeners in Hrun. simpl in Hrun.
  unfold addProject. fold a. rewrite Hs. simpl. fold l p h1.
  destruct (for_listeners a (listeners (this st)) h1) as [[h' cs']|]; [|done].
  simpl in *. injection Hrun as <- <-.
  eexists _, _. split; [done|]. simpl in *.
  unfold slots, wf, collection in *. simpl in *. fold a.
  rewrite Ha1 in Hsl, Hall. rewrite Hd1 in K.
  split_and!; try done. intros Hro. by destruct (K Hro) as (_ & ? & ?).
Qed.

(** ** [moveProject] *)

(** No project has the id: nothing happens. *)
Lemma moveProject_none pid s st :
  wf st → Forall (λ q, id q ≠ pid) (collection st) →
  moveProject pid s st = Some (st, []).
Proof.
  intros Hwf Hn. destruct (wf_slots st Hwf) as (cells & Hs & Hg & Hnd).
  rewrite (wf_collection st cells Hs) in Hn.
  unfold moveProject. unfold slots in Hs. rewrite Hs. simpl.
  by rewrite (find_id_none _ _ _ Hg Hn).
Qed.

(** [p] is the first project with the id: it is the one looked at, and at
    most its status changes. *)
Lemma moveProject_first pid s st before p after :
  wf st →
  collection st = before ++ p :: after →
  Forall (λ q, id q ≠ pid) before →
  id p = pid →
  (status p = s → moveProject pid s st = Some (st, [])) ∧
  (status p ≠ s →
     ∃ st' cs, moveProject pid s st = Some (st', cs) ∧
       this st' = this st ∧
       slots st' = slots st ∧
       wf st' ∧
       (∃ l, objs (heap st) !! l = Some p ∧
          (cells ← slots st; cells !! length before) = Some (Some l) ∧
          notified (projects (this st))
            {| objs := <[l := set_status s p]> (objs (heap st));
               arrs := arrs (heap st) |}
            (listeners (this st)) cs (heap st')) ∧
       Forall (λ c, items c ≠ projects (this st) ∧
                    arrs (seen c) !! items c = slots st) cs ∧
       (Forall readonly (listeners (this st)) →
          collection st' = before ++ set_status s p :: after ∧
          Forall (λ c, snapshot c = before ++ set_status s p :: after) cs)).
Proof.
  intros Hwf Hc Hb Hp. destruct (wf_slots st Hwf) as (cells & Hs & Hg & Hnd).
  rewrite (wf_collection st cells Hs) in Hc.
  destruct (find_id_first _ pid cells before p after Hg Hc Hb Hp)
    as (l & Hf & Hl & Hi).
  unfold moveProject. unfold slots in *. rewrite Hs. simpl.
  rewrite Hf. simpl. rewrite Hl. simpl. split.
  - intros Heq. by rewrite bool_decide_eq_false_2 by (by intros []).
  - intros Hne. rewrite bool_decide_eq_true_2 by done.
    set (h1 := {| objs := <[l := set_status s p]> (objs (heap st));
                  arrs := arrs (heap st) |}).
    assert (Hwf1 : wf_array h1 (projects (this st))).
    { unfold wf_array. simpl. rewrite Hs. split; [|done].
      eapply Forall_impl; [exact Hg|]. intros c. apply good_slot_mono.
      simpl. by rewrite length_insert. }
    assert (Hd1 : contents h1 (projects (this st))
                  = before ++ set_status s p :: after).
    { unfold contents. simpl. rewrite Hs. simpl.
      unfold h1. rewrite (deref_insert _ _ _ _ _ _ Hg Hnd Hi), Hc.
      rewrite insert_app_r_alt by done. by rewrite Nat.sub_diag. }
    destruct (updateListeners_spec (this st) h1 Hwf1)
      as (st' & cs & -> & Hthis & Hsl & G & Hwf' & Hcs & Hall & K).
    eexists _, _. split; [done|]. simpl in Hsl, Hall.
    rewrite Hd1 in K. rewrite Hs in Hsl, Hall.
    split_and!; try done; [by exists l|].
    intros Hro. by destruct (K Hro) as (_ & ? & ?).
Qed.

(** On a well-formed store [moveProject] always ends, the array of
    references is as it was, and whoever is called gets a copy of it. *)
Lemma moveProject_returns pid s st :
  wf st →
  ∃ st' cs, moveProject pid s st = Some (st', cs) ∧
    this st' = this st ∧ slots st' = slots st ∧ wf st' ∧
    Forall (λ c, items c ≠ projects (this st) ∧
                 arrs (seen c) !! items c = slots st) cs ∧
    (Forall readonly (listeners (this st)) →
       Forall (λ c, snapshot c = collection st') cs).
Proof.
  intros Hwf. destruct (wf_slots st Hwf) as (cells & Hs & Hg & Hnd).
  destruct (find_id_cases (heap st) pid cells Hg)
    as [Hn | (before & p & after & Hc & Hb & Hp)].
  - rewrite <- (wf_collection st cells Hs) in Hn.
    rewrite (moveProject_none pid s st Hwf Hn). eexists _, _.
    split_and!; first [done | by constructor | by intros; constructor].
  - rewrite <- (wf_collection st cells Hs) in Hc.
    destruct (moveProject_first pid s st before p after Hwf Hc Hb Hp)
      as [Hsame Hdiff].
    destruct (decide (status p = s)) as [Heq|Hne].
    + rewrite (Hsame Heq). eexists _, _.
      split_and!; first [done | by constructor | by intros; constructor].
    + destruct (Hdiff Hne) as (st' & cs & -> & ? & ? & ? & _ & ? & K).
      eexists _, _. split_and!; try done.
      intros Hro. destruct (K Hro) as [-> ?]. done.
Qed.


(** ** Sample stores *)

(** Well-formedness of a store that is written out: check the slots one by
    one and decide that no reference repeats. *)
Ltac concrete_wf :=
  unfold wf, wf_array; simpl; split;
  [ repeat constructor; simpl; lia
  | apply (bool_decide_unpack _); vm_compute; exact I ].

Lemma wf_new_store : wf new_store.
Proof. unfold wf, wf_array. simpl. split; constructor. Qed.

Lemma wf_register ls st : wf st → wf (register ls st).
Proof.
  revert st. induction ls as [|l ls IH]; intros st Hwf; [done|].
  simpl. by apply IH.
Qed.

Lemma register_this ls st :
  listeners (this (register ls st)) = listeners (this st) ++ ls ∧
  projects (this (register ls st)) = projects (this st) ∧
  heap (register ls st) = heap st.
Proof.
  revert st. induction ls as [|l ls IH]; intros st; simpl.
  - by rewrite app_nil_r.
  - destruct (IH (addListener l st)) as (-> & -> & ->). simpl.
    by rewrite <- app_assoc.
Qed.

Lemma readonly_reader : readonly reader.
Proof. intros h a. constructor. Qed.

Lemma readonly_scribbler : readonly scribbler.
Proof. intros h a. by repeat constructor. Qed.

(** The one kind of listener this program registers does not write to
    projects. *)
Lemma readonly_ProjectList_listener self : readonly (ProjectList_listener self).
Proof. intros h a. by repeat constructor. Qed.

Lemma readonly_app_store : Forall readonly (listeners (this app_store)).
Proof. repeat constructor; apply readonly_ProjectList_listener. Qed.

Lemma wf_app_store : wf app_store.
Proof. apply wf_register, wf_new_store. Qed.

(** [new_store] is the store [getInstance] builds when the module loads. *)
Lemma loaded_new_store :
  instances loaded = [this new_store] ∧ mem loaded = heap new_store.
Proof. done. Qed.

(** The scenario of section 8 of the specification.  Adding a project shows
    it to the active list (array 2 is what its listener filtered) and not to
    the finished list (array 4); moving it to [Finished] empties the active
    list (array 6) and fills the finished one (array 8); the collection
    still has one project. *)
Example add_then_move :
  (st1 ← fst <$> addProject "0.5" "A" "about A" 3 app_store;
   st2 ← fst <$> moveProject "0.5" Finished st1;
   Some (arrs (heap st1), arrs (heap st2), collection st2))
  = Some ([[Some 0]; [Some 0]; [Some 0]; [Some 0]; []],
          [[Some 0]; [Some 0]; [Some 0]; [Some 0]; [];
           [Some 0]; []; [Some 0]; [Some 0]],
          [Project_new "0.5" "A" "about A" 3 Finished]).
Proof. vm_compute. reflexivity. Qed.

(** ** Identifiers *)

(** C1, as amended: for every sequence of [addProject] calls on a store
    whose observers do not write to projects, the ids in the collection are
    the ids that were there followed, in call order, by the strings drawn
    from [Math.random().toString()]; starting from an empty collection they
    are pairwise distinct exactly when the draws are.  The store itself
    never compares ids. *)
Theorem addProjects_ids calls : ∀ st,
  wf st → Forall readonly (listeners (this st)) →
  ∃ st', addProjects calls st = Some st' ∧
    map id (collection st') = map id (collection st) ++ map draw calls ∧
    (collection st = [] →
       NoDup (map id (collection st')) ↔ NoDup (map draw calls)).
Proof.
  assert (H : ∀ st, wf st → Forall readonly (listeners (this st)) →
    ∃ st', addProjects calls st = Some st' ∧
      map id (collection st') = map id (collection st) ++ map draw calls).
  { induction calls as [|c rest IH]; intros st Hwf Hro; simpl.
    - exists st. by rewrite app_nil_r.
    - destruct (wf_slots st Hwf) as (cells & Hs & _).
      destruct (addProject_spec (draw c) (new_title c) (new_description c)
                  (new_people c) st cells Hwf Hs)
        as (st1 & cs & -> & Hthis & _ & Hwf1 & _ & _ & K).
      destruct (K Hro) as [Hc _]. simpl.
      destruct (IH st1) as (st' & -> & Hids); [done | by rewrite Hthis |].
      exists st'. split; [done|].
      rewrite Hids, Hc, map_app. simpl. by rewrite <- app_assoc. }
  intros st Hwf Hro. destruct (H st Hwf Hro) as (st' & Hrun & Hids).
  exists st'. split_and!; [done | done |].
  intros He. rewrite Hids, He. done.
Qed.

Lemma addProjects_ids_witness :
  ∃ st', addProjects
      [{| draw := "0.25"; new_title := "A"; new_description := "first";
          new_people := 1 |};
       {| draw := "0.75"; new_title := "B"; new_description := "second";
          new_people := 2 |}] app_store = Some st' ∧
    map id (collection st') = map id (collection app_store) ++ ["0.25"; "0.75"] ∧
    (collection app_store = [] →
       NoDup (map id (collection st')) ↔ NoDup ["0.25"; "0.75"]).
Proof.
  apply (addProjects_ids
    [{| draw := "0.25"; new_title := "A"; new_description := "first";
        new_people := 1 |};
     {| draw := "0.75"; new_title := "B"; new_description := "second";
        new_people := 2 |}] app_store).
  - concrete_wf.
  - simpl. repeat constructor; intros h a; repeat constructor.
Defined.

(** C1 as stated fails: two calls whose draws coincide leave two projects
    with the same id in the store. *)
Lemma addProjects_same_draw :
  (λ st', map id (collection st')) <$>
    addProjects
      [{| draw := "0.5"; new_title := "A"; new_description := "first";
          new_people := 1 |};
       {| draw := "0.5"; new_title := "B"; new_description := "second";
          new_people := 2 |}] app_store
  = Some ["0.5"; "0.5"] ∧
  ¬ NoDup ["0.5"; "0.5"].
Proof.
  split; [vm_compute; reflexivity|].
  intros Hnd. apply NoDup_cons in Hnd as [Hin _]. apply Hin. by left.
Qed.

(** ** Snapshots *)

(** C2, as amended: what an observer receives is a fresh array holding the
    store's references.  On every notification, whatever the observers do,
    no observer is handed the store's own array, every observer is handed
    the slots the store holds, and the store's array is as the mutation
    left it; and as long as observers change only the arrays they received
    (adding, removing, replacing or reordering slots), every snapshot
    delivered shows exactly the store's collection.  The [Project] objects
    themselves are shared with the store. *)
Theorem snapshot_isolation st :
  wf st →
  (∀ rnd t d n, ∃ st' cs,
     addProject rnd t d n st = Some (st', cs) ∧
     Forall (λ c, items c ≠ projects (this st) ∧
                  arrs (seen c) !! items c = slots st') cs ∧
     (Forall readonly (listeners (this st)) →
        Forall (λ c, snapshot c = collection st') cs)) ∧
  (∀ pid s, ∃ st' cs,
     moveProject pid s st = Some (st', cs) ∧
     Forall (λ c, items c ≠ projects (this st) ∧
                  arrs (seen c) !! items c = slots st') cs ∧
     (Forall readonly (listeners (this st)) →
        Forall (λ c, snapshot c = collection st') cs)).
Proof.
  intros Hwf. split.
  - intros rnd t d n. destruct (wf_slots st Hwf) as (cells & Hs & _).
    destruct (addProject_spec rnd t d n st cells Hwf Hs)
      as (st' & cs & Hrun & _ & Hs' & _ & _ & Hall & K).
    exists st', cs. rewrite Hs'. split_and!; [done | done |].
    intros Hro. destruct (K Hro) as [-> ?]. done.
  - intros pid s.
    destruct (moveProject_returns pid s st Hwf)
      as (st' & cs & Hrun & _ & Hs' & _ & Hall & K).
    exists st', cs. rewrite Hs'. done.
Qed.

Lemma snapshot_isolation_witness :
  (∀ rnd t d n, ∃ st' cs,
     addProject rnd t d n (register [scribbler; reader] new_store)
       = Some (st', cs) ∧
     Forall (λ c, items c ≠ 0 ∧ arrs (seen c) !! items c = slots st') cs ∧
     (Forall readonly [scribbler; reader] →
        Forall (λ c, snapshot c = collection st') cs)) ∧
  (∀ pid s, ∃ st' cs,
     moveProject pid s (register [scribbler; reader] new_store)
       = Some (st', cs) ∧
     Forall (λ c, items c ≠ 0 ∧ arrs (seen c) !! items c = slots st') cs ∧
     (Forall readonly [scribbler; reader] →
        Forall (λ c, snapshot c = collection st') cs)).
Proof.
  apply (snapshot_isolation (register [scribbler; reader] new_store)).
  concrete_wf.
Defined.

(** C2 as stated fails: an observer that writes to an element of the array
    it received writes to the store's own [Project].  Here the first
    observer is shown the new project as [Active] and sets its status; the
    next snapshot delivered, and the store, show it as [Finished]. *)
Lemma element_write_reaches_store :
  ∃ st' c1 c2,
    addProject "0.5" "T" "D" 3 (register [finisher; reader] new_store)
      = Some (st', [c1; c2]) ∧
    snapshot c1 = [Project_new "0.5" "T" "D" 3 Active] ∧
    snapshot c2 = [Project_new "0.5" "T" "D" 3 Finished] ∧
    collection st' = [Project_new "0.5" "T" "D" 3 Finished].
Proof. eexists _, _, _. split_and!; reflexivity. Qed.

(** ** Adding a project *)

(** C3, as amended: on every well-formed store [addProject(title,
    description, peopleCount)] creates a project with the given title,
    description and people count and status [Active] and appends a reference
    to it at the end of the store's array, the references already there
    keeping their place.  With the store in that state the observers are
    invoked in registration order, each once, each in the heap the one
    before it left and with an array of its own whose last slot is the new
    project, up to and including the first observer that throws: observers
    after that one are not invoked and the exception leaves [addProject].
    When no observer throws, every registered observer has been invoked once
    when the call returns.  As long as observers do not write to the
    [Project] objects they are shown, the collection at the end is the old
    one followed by the new project as it was created, and that is what
    every snapshot shows. *)
Theorem addProject_appends rnd t d n st cells :
  wf st → slots st = Some cells →
  ∃ st' cs l,
    addProject rnd t d n st = Some (st', cs) ∧
    l = length (objs (heap st)) ∧
    slots st' = Some (cells ++ [Some l]) ∧
    notified (projects (this st))
      {| objs := objs (heap st) ++ [Project_new rnd t d n Active];
         arrs := <[projects (this st) := cells ++ [Some l]]> (arrs (heap st)) |}
      (listeners (this st)) cs (heap st') ∧
    map callee cs `prefix_of` listeners (this st) ∧
    (completion_of cs = Normal → map callee cs = listeners (this st)) ∧
    Forall (λ c, items c ≠ projects (this st) ∧
                 ∃ shown, arrs (seen c) !! items c = Some shown ∧
                          last shown = Some (Some l)) cs ∧
    (Forall readonly (listeners (this st)) →
       collection st' = collection st ++ [Project_new rnd t d n Active] ∧
       Forall (λ c, snapshot c = collection st ++ [Project_new rnd t d n Active] ∧
                    last (snapshot c) = Some (Project_new rnd t d n Active)) cs).
Proof.
  intros Hwf Hs.
  destruct (addProject_spec rnd t d n st cells Hwf Hs)
    as (st' & cs & Hrun & _ & Hs' & _ & Hcs & Hall & K).
  destruct (notified_callees _ _ _ _ _ Hcs) as (Hpre & Hfull & _).
  exists st', cs, (length (objs (heap st))).
  split_and!; [done | done | done | done | done | done | |].
  - eapply Forall_impl; [exact Hall|]. intros c [Hne Hc]. simpl in Hc.
    split; [done|]. eexists. split; [exact Hc|]. apply last_snoc.
  - intros Hro. destruct (K Hro) as [Hc Hsn]. split; [done|].
    eapply Forall_impl; [exact Hsn|]. intros c Hc'. simpl in Hc'.
    split; [done|]. rewrite Hc'. apply last_snoc.
Qed.

Lemma addProject_appends_witness :
  ∃ st' cs,
    addProject "0.5" "T" "D" 3
      {| heap := {| objs := [Project_new "0.1" "A" "first" 1 Finished];
                    arrs := [[Some 0]] |};
         this := {| listeners := [scribbler; reader]; projects := 0 |} |}
      = Some (st', cs) ∧
    slots st' = Some [Some 0; Some 1] ∧
    notified 0
      {| objs := [Project_new "0.1" "A" "first" 1 Finished;
                  Project_new "0.5" "T" "D" 3 Active];
         arrs := [[Some 0; Some 1]] |}
      [scribbler; reader] cs (heap st') ∧
    collection st' = [Project_new "0.1" "A" "first" 1 Finished;
                      Project_new "0.5" "T" "D" 3 Active] ∧
    Forall (λ c, last (snapshot c) = Some (Project_new "0.5" "T" "D" 3 Active)) cs.
Proof.
  destruct (addProject_appends "0.5" "T" "D" 3
      {| heap := {| objs := [Project_new "0.1" "A" "first" 1 Finished];
                    arrs := [[Some 0]] |};
         this := {| listeners := [scribbler; reader]; projects := 0 |} |}
      [Some 0])
    as (st' & cs & l & Hrun & -> & Hs & Hn & _ & _ & _ & K).
  - concrete_wf.
  - reflexivity.
  - destruct K as [Hcoll Hsn].
    { simpl. repeat constructor. }
    exists st', cs. split_and!; [done | done | done | done |].
    eapply Forall_impl; [exact Hsn|]. by intros c [_ ?].
Defined.

(** C3 as stated fails in two ways.  An observer that writes to the project
    it is shown leaves the new project [Finished] when [addProject] returns;
    and when the first of two observers throws, the second is never
    invoked and [addProject] throws. *)
Lemma addProject_observers_interfere :
  (λ r, collection r.1) <$>
    addProject "0.5" "T" "D" 3 (register [finisher] new_store)
  = Some [Project_new "0.5" "T" "D" 3 Finished] ∧
  (λ r, (length r.2, completion_of r.2)) <$>
    addProject "0.5" "T" "D" 3 (register [thrower; reader] new_store)
  = Some (1, Throw).
Proof. split; vm_compute; reflexivity. Qed.

(** ** Moving a project *)

(** C4: when no project in the collection has the given id,
    [moveProject(id, newStatus)] returns normally, the store (its heap and
    its fields, and so the collection) is exactly as before, and no observer
    is called. *)
Theorem moveProject_unknown_id pid s st :
  wf st → Forall (λ q, id q ≠ pid) (collection st) →
  ∃ st' cs,
    moveProject pid s st = Some (st', cs) ∧
    st' = st ∧
    collection st' = collection st ∧
    cs = [].
Proof.
  intros Hwf Hn. destruct (wf_slots st Hwf) as (cells & Hs & Hg & _).
  rewrite (wf_collection st cells Hs) in Hn.
  pose proof (find_id_none (heap st) pid cells Hg Hn) as Hf.
  unfold moveProject. unfold slots in Hs. rewrite Hs. simpl. rewrite Hf.
  simpl. by exists st, [].
Qed.

Lemma moveProject_unknown_id_witness :
  ∃ st' cs,
    moveProject "nonexistent-id" Finished
      {| heap := {| objs := [Project_new "0.5" "T" "D" 3 Active];
                    arrs := [[Some 0]] |};
         this := {| listeners := [reader]; projects := 0 |} |}
    = Some (st', cs) ∧
    st' = {| heap := {| objs := [Project_new "0.5" "T" "D" 3 Active];
                        arrs := [[Some 0]] |};
             this := {| listeners := [reader]; projects := 0 |} |} ∧
    collection st' = [Project_new "0.5" "T" "D" 3 Active] ∧
    cs = [].
Proof.
  apply (moveProject_unknown_id "nonexistent-id" Finished
    {| heap := {| objs := [Project_new "0.5" "T" "D" 3 Active];
                  arrs := [[Some 0]] |};
       this := {| listeners := [reader]; projects := 0 |} |}).
  - concrete_wf.
  - simpl. by repeat constructor.
Defined.

(** C5, as amended: when the first project, in insertion order, whose id is
    the given id already has status [newStatus] -- so in particular when
    ids are pairwise distinct and some project has that id and that status
    -- [moveProject(id, newStatus)] leaves the store exactly as it was and
    calls no observer. *)
Theorem moveProject_same_status pid s st :
  wf st →
  (∀ before p after,
     collection st = before ++ p :: after →
     Forall (λ q, id q ≠ pid) before → id p = pid → status p = s →
     moveProject pid s st = Some (st, [])) ∧
  (∀ p, NoDup (map id (collection st)) →
     p ∈ collection st → id p = pid → status p = s →
     moveProject pid s st = Some (st, [])).
Proof.
  intros Hwf.
  assert (H1 : ∀ before p after,
     collection st = before ++ p :: after →
     Forall (λ q, id q ≠ pid) before → id p = pid → status p = s →
     moveProject pid s st = Some (st, [])).
  { intros before p after Hc Hb Hp Hst.
    by apply (moveProject_first pid s st before p after Hwf Hc Hb Hp). }
  split; [exact H1|].
  intros p Hnd Hin Hp Hst.
  apply list_elem_of_split in Hin as (before & after & Hc).
  apply (H1 before p after Hc); [|done|done].
  rewrite Hc, map_app in Hnd. simpl in Hnd.
  apply NoDup_app in Hnd as (_ & Hdis & _).
  apply Forall_forall. intros q Hq Heq.
  apply (Hdis (id q)); [by apply list_elem_of_fmap_2|].
  rewrite Heq, <- Hp. by left.
Qed.

Lemma moveProject_same_status_witness :
  moveProject "0.5" Active
    {| heap := {| objs := [Project_new "0.5" "T" "D" 3 Active];
                  arrs := [[Some 0]] |};
       this := {| listeners := [reader]; projects := 0 |} |}
  = Some ({| heap := {| objs := [Project_new "0.5" "T" "D" 3 Active];
                        arrs := [[Some 0]] |};
             this := {| listeners := [reader]; projects := 0 |} |}, []).
Proof.
  refine (proj1 (moveProject_same_status "0.5" Active _ _)
            [] (Project_new "0.5" "T" "D" 3 Active) [] _ _ _ _).
  - concrete_wf.
  - reflexivity.
  - constructor.
  - reflexivity.
  - reflexivity.
Defined.

(** C5 as stated fails once two projects share an id.  The store [st]
    below is reached through the public methods; it holds a project with
    id "0.5" and status [Active], and still [moveProject("0.5", Active)]
    changes the collection and calls both observers, because [find] stops
    at the first project with that id. *)
Lemma moveProject_same_status_later_project :
  let reached :=
    st1 ← addProjects
      [{| draw := "0.5"; new_title := "A"; new_description := "first";
          new_people := 1 |};
       {| draw := "0.5"; new_title := "B"; new_description := "second";
          new_people := 2 |}] app_store;
    fst <$> moveProject "0.5" Finished st1 in
  collection <$> reached
  = Some [Project_new "0.5" "A" "first" 1 Finished;
          Project_new "0.5" "B" "second" 2 Active] ∧
  (st ← reached;
   '(st', cs) ← moveProject "0.5" Active st;
   Some (collection st', length cs))
  = Some ([Project_new "0.5" "A" "first" 1 Active;
           Project_new "0.5" "B" "second" 2 Active], 2).
Proof. split; vm_compute; reflexivity. Qed.

(** C6, as amended: [moveProject] never reorders the collection and never
    changes its length: after every call the store's array holds the same
    references in the same order.  A call that finds a project whose status
    differs from [newStatus] writes, itself, to one object only, the first
    with the id, and to its status only: the observers are notified in the
    heap that differs from the old one in that field alone.  As long as the
    observers do not write to the [Project] objects they are shown, that is
    also what the collection shows when the call ends: the projects before
    and after the moved one and its other fields are as they were. *)
Theorem moveProject_frame pid s st :
  wf st →
  ∃ st' cs,
    moveProject pid s st = Some (st', cs) ∧
    this st' = this st ∧
    slots st' = slots st ∧
    ∀ before p after,
      collection st = before ++ p :: after →
      Forall (λ q, id q ≠ pid) before → id p = pid → status p ≠ s →
      (∃ l, objs (heap st) !! l = Some p ∧
            (cells ← slots st; cells !! length before) = Some (Some l) ∧
            notified (projects (this st))
              {| objs := <[l := Project_new (id p) (title p) (description p)
                                            (people p) s]> (objs (heap st));
                 arrs := arrs (heap st) |}
              (listeners (this st)) cs (heap st')) ∧
      (Forall readonly (listeners (this st)) →
         collection st'
         = before ++ Project_new (id p) (title p) (description p) (people p) s
                  :: after).
Proof.
  intros Hwf.
  destruct (moveProject_returns pid s st Hwf)
    as (st' & cs & Hrun & Hthis & Hs & _).
  exists st', cs. split_and!; [done | done | done |].
  intros before p after Hc Hb Hp Hne.
  destruct (moveProject_first pid s st before p after Hwf Hc Hb Hp)
    as [_ Hdiff].
  destruct (Hdiff Hne) as (st2 & cs2 & Hrun2 & _ & _ & _ & Hown & _ & K).
  rewrite Hrun in Hrun2. injection Hrun2 as <- <-.
  split; [exact Hown|]. intros Hro. by destruct (K Hro).
Qed.

Lemma moveProject_frame_witness :
  ∃ st' cs,
    moveProject "0.2" Finished
      {| heap := {| objs := [Project_new "0.1" "A" "first" 1 Active;
                             Project_new "0.2" "B" "second" 2 Active;
                             Project_new "0.3" "C" "third" 3 Finished];
                    arrs := [[Some 0; Some 1; Some 2]] |};
         this := {| listeners := [scribbler]; projects := 0 |} |}
      = Some (st', cs) ∧
    this st' = {| listeners := [scribbler]; projects := 0 |} ∧
    slots st' = Some [Some 0; Some 1; Some 2] ∧
    collection st' = [Project_new "0.1" "A" "first" 1 Active;
                      Project_new "0.2" "B" "second" 2 Finished;
                      Project_new "0.3" "C" "third" 3 Finished].
Proof.
  destruct (moveProject_frame "0.2" Finished
    {| heap := {| objs := [Project_new "0.1" "A" "first" 1 Active;
                           Project_new "0.2" "B" "second" 2 Active;
                           Project_new "0.3" "C" "third" 3 Finished];
                  arrs := [[Some 0; Some 1; Some 2]] |};
       this := {| listeners := [scribbler]; projects := 0 |} |})
    as (st' & cs & Hrun & Hthis & Hs & K).
  - concrete_wf.
  - exists st', cs. split_and!; [done | done | done |].
    destruct (K [Project_new "0.1" "A" "first" 1 Active]
                (Project_new "0.2" "B" "second" 2 Active)
                [Project_new "0.3" "C" "third" 3 Finished]) as [_ Hc].
    + reflexivity.
    + repeat constructor. simpl. discriminate.
    + reflexivity.
    + discriminate.
    + apply Hc. simpl. repeat constructor.
Defined.

(** C6 as stated fails: the observers run inside [moveProject] and share
    the [Project] objects.  Here the move of the second project notifies an
    observer that retitles the first. *)
Lemma moveProject_observer_rewrites_other :
  (λ r, collection r.1) <$>
    moveProject "0.2" Finished
      {| heap := {| objs := [Project_new "0.1" "A" "first" 1 Active;
                             Project_new "0.2" "B" "second" 2 Active];
                    arrs := [[Some 0; Some 1]] |};
         this := {| listeners := [retitler]; projects := 0 |} |}
  = Some [Project_new "0.1" "X" "first" 1 Active;
          Project_new "0.2" "B" "second" 2 Finished].
Proof. vm_compute. reflexivity. Qed.

(** C10, as amended: if the first project with the given id is [p], then
    [moveProject(id, newStatus)] ends with the store's array unchanged.
    When [p] has the status already, nothing is written and nobody is
    notified; otherwise [moveProject] itself writes to the object of [p]
    only, and to its status only, whatever the ids of the projects after
    it: the observers are notified in the heap that differs from the old
    one in that field alone.  As long as the observers do not write to the
    [Project] objects they are shown, the projects before and after [p]
    are untouched when the call ends -- later projects that share the id
    are left as they were -- and [p] itself is either unchanged or has only
    its status set. *)
Theorem moveProject_first_match_only pid s st before p after :
  wf st →
  collection st = before ++ p :: after →
  Forall (λ q, id q ≠ pid) before → id p = pid →
  ∃ st' cs,
    moveProject pid s st = Some (st', cs) ∧
    slots st' = slots st ∧
    (status p = s → st' = st ∧ cs = []) ∧
    (status p ≠ s →
       ∃ l, objs (heap st) !! l = Some p ∧
            (cells ← slots st; cells !! length before) = Some (Some l) ∧
            notified (projects (this st))
              {| objs := <[l := Project_new (id p) (title p) (description p)
                                            (people p) s]> (objs (heap st));
                 arrs := arrs (heap st) |}
              (listeners (this st)) cs (heap st')) ∧
    (Forall readonly (listeners (this st)) →
     ∃ p', collection st' = before ++ p' :: after ∧
           (p' = p ∨
            p' = Project_new (id p) (title p) (description p) (people p) s)).
Proof.
  intros Hwf Hc Hb Hp.
  destruct (moveProject_first pid s st before p after Hwf Hc Hb Hp)
    as [Hsame Hdiff].
  destruct (decide (status p = s)) as [Heq|Hne].
  - exists st, []. rewrite (Hsame Heq).
    split_and!; [done | done | done | done |].
    intros _. exists p. auto.
  - destruct (Hdiff Hne) as (st' & cs & Hrun & _ & Hs & _ & Hown & _ & K).
    exists st', cs. split_and!; [done | done | done | by intros _ |].
    intros Hro. destruct (K Hro) as [Hc' _].
    exists (set_status s p). auto.
Qed.

Lemma moveProject_first_match_only_witness :
  ∃ st' cs,
    moveProject "0.5" Finished
      {| heap := {| objs := [Project_new "0.1" "A" "first" 1 Active;
                             Project_new "0.5" "B" "second" 2 Active;
                             Project_new "0.5" "C" "third" 3 Active];
                    arrs := [[Some 0; Some 1; Some 2]] |};
         this := {| listeners := [reader]; projects := 0 |} |}
      = Some (st', cs) ∧
    slots st' = Some [Some 0; Some 1; Some 2] ∧
    ∃ p', collection st'
          = [Project_new "0.1" "A" "first" 1 Active] ++ p'
              :: [Project_new "0.5" "C" "third" 3 Active] ∧
          (p' = Project_new "0.5" "B" "second" 2 Active ∨
           p' = Project_new "0.5" "B" "second" 2 Finished).
Proof.
  destruct (moveProject_first_match_only "0.5" Finished
    {| heap := {| objs := [Project_new "0.1" "A" "first" 1 Active;
                           Project_new "0.5" "B" "second" 2 Active;
                           Project_new "0.5" "C" "third" 3 Active];
                  arrs := [[Some 0; Some 1; Some 2]] |};
       this := {| listeners := [reader]; projects := 0 |} |}
    [Project_new "0.1" "A" "first" 1 Active]
    (Project_new "0.5" "B" "second" 2 Active)
    [Project_new "0.5" "C" "third" 3 Active])
    as (st' & cs & Hrun & Hs & _ & _ & K).
  - concrete_wf.
  - reflexivity.
  - repeat constructor. simpl. discriminate.
  - reflexivity.
  - exists st', cs. split_and!; [done | done |].
    apply K. simpl. repeat constructor.
Defined.

(** C10 as stated fails: an observer notified by the move can itself write
    to a later project with the same id.  Here both projects have id "0.5";
    the move sets the first to [Finished] and the observer the second. *)
Lemma moveProject_observer_finishes_later :
  (λ r, collection r.1) <$>
    moveProject "0.5" Finished
      {| heap := {| objs := [Project_new "0.5" "A" "first" 1 Active;
                             Project_new "0.5" "B" "second" 2 Active];
                    arrs := [[Some 0; Some 1]] |};
         this := {| listeners := [second_finisher]; projects := 0 |} |}
  = Some [Project_new "0.5" "A" "first" 1 Finished;
          Project_new "0.5" "B" "second" 2 Finished].
Proof. vm_compute. reflexivity. Qed.

(** ** Order of notification *)

(** C7, as amended: after listeners have been registered one by one with
    [addListener], every mutation that notifies -- [addProject], and
    [moveProject] when it changes a status -- invokes the registered
    listeners in the order of their registration, each once, each in the
    heap the one before it left, up to and including the first listener
    that throws: the listeners registered after that one are not invoked in
    that notification, and a call that threw is the last call made.  When
    no listener throws, every registered listener is invoked exactly
    once. *)
Theorem listeners_called_in_registration_order ls st cells :
  wf st → slots st = Some cells →
  (∀ rnd t d n, ∃ st' cs,
     addProject rnd t d n (register ls st) = Some (st', cs) ∧
     notified (projects (this st))
       {| objs := objs (heap st) ++ [Project_new rnd t d n Active];
          arrs := <[projects (this st) :=
                    cells ++ [Some (length (objs (heap st)))]]>
                    (arrs (heap st)) |}
       (listeners (this st) ++ ls) cs (heap st') ∧
     map callee cs `prefix_of` listeners (this st) ++ ls ∧
     (completion_of cs = Normal → map callee cs = listeners (this st) ++ ls) ∧
     (∀ i c, cs !! i = Some c → outcome c = Throw → S i = length cs)) ∧
  (∀ pid s before p after,
     collection st = before ++ p :: after →
     Forall (λ q, id q ≠ pid) before → id p = pid → status p ≠ s →
     ∃ st' cs l,
       moveProject pid s (register ls st) = Some (st', cs) ∧
       cells !! length before = Some (Some l) ∧
       notified (projects (this st))
         {| objs := <[l := set_status s p]> (objs (heap st));
            arrs := arrs (heap st) |}
         (listeners (this st) ++ ls) cs (heap st') ∧
       map callee cs `prefix_of` listeners (this st) ++ ls ∧
       (completion_of cs = Normal → map callee cs = listeners (this st) ++ ls) ∧
       (∀ i c, cs !! i = Some c → outcome c = Throw → S i = length cs)).
Proof.
  intros Hwf Hs. pose proof (wf_register ls st Hwf) as Hwf'.
  destruct (register_this ls st) as (Hl & Hp & Hh).
  assert (Hs' : slots (register ls st) = Some cells).
  { unfold slots. by rewrite Hp, Hh. }
  split.
  - intros rnd t d n.
    destruct (addProject_spec rnd t d n _ cells Hwf' Hs')
      as (st' & cs & Hrun & _ & _ & _ & Hcs & _).
    rewrite Hl, Hp, Hh in Hcs.
    destruct (notified_callees _ _ _ _ _ Hcs) as (Hpre & Hfull & Hlast).
    by exists st', cs.
  - intros pid s before p after Hc Hb Hid Hne.
    assert (Hc' : collection (register ls st) = before ++ p :: after).
    { unfold collection. by rewrite Hp, Hh. }
    destruct (moveProject_first pid s _ before p after Hwf' Hc' Hb Hid)
      as [_ Hdiff].
    destruct (Hdiff Hne)
      as (st' & cs & Hrun & _ & _ & _ & (l & _ & Hi & Hcs) & _).
    rewrite Hs' in Hi. simpl in Hi. rewrite Hl, Hp, Hh in Hcs.
    destruct (notified_callees _ _ _ _ _ Hcs) as (Hpre & Hfull & Hlast).
    by exists st', cs, l.
Qed.

Lemma listeners_called_in_registration_order_witness :
  (∃ st' cs,
     addProject "0.7" "T" "D" 3
       (register [finisher; reader; scribbler]
          {| heap := {| objs := [Project_new "0.1" "A" "first" 1 Active];
                        arrs := [[Some 0]] |};
             this := {| listeners := [scribbler]; projects := 0 |} |})
       = Some (st', cs) ∧
     notified 0
       {| objs := [Project_new "0.1" "A" "first" 1 Active;
                   Project_new "0.7" "T" "D" 3 Active];
          arrs := [[Some 0; Some 1]] |}
       ([scribbler] ++ [finisher; reader; scribbler]) cs (heap st')) ∧
  (∃ st' cs,
     moveProject "0.1" Finished
       (register [finisher; reader; scribbler]
          {| heap := {| objs := [Project_new "0.1" "A" "first" 1 Active];
                        arrs := [[Some 0]] |};
             this := {| listeners := [scribbler]; projects := 0 |} |})
       = Some (st', cs) ∧
     notified 0
       {| objs := [Project_new "0.1" "A" "first" 1 Finished];
          arrs := [[Some 0]] |}
       ([scribbler] ++ [finisher; reader; scribbler]) cs (heap st')).
Proof.
  destruct (listeners_called_in_registration_order
              [finisher; reader; scribbler]
              {| heap := {| objs := [Project_new "0.1" "A" "first" 1 Active];
                            arrs := [[Some 0]] |};
                 this := {| listeners := [scribbler]; projects := 0 |} |}
              [Some 0])
    as [Hadd Hmove].
  - concrete_wf.
  - reflexivity.
  - split.
    + destruct (Hadd "0.7" "T" "D" 3%float) as (st' & cs & Hrun & Hn & _).
      by exists st', cs.
    + destruct (Hmove "0.1" Finished []
                  (Project_new "0.1" "A" "first" 1 Active) [])
        as (st' & cs & l & Hrun & Hl & Hn & _).
      * reflexivity.
      * constructor.
      * reflexivity.
      * discriminate.
      * simpl in Hl. injection Hl as <-. by exists st', cs.
Defined.

(** C7 as stated fails when a listener throws: the loop has no [try], so
    of three registered listeners of which the second throws only the first
    two are invoked, and the mutation ends by throwing. *)
Lemma listener_after_thrower_not_called :
  (λ r, (length r.2, completion_of r.2)) <$>
    addProject "0.5" "T" "D" 3 (register [reader; thrower; reader] new_store)
  = Some (2, Throw).
Proof. vm_compute. reflexivity. Qed.

(** ** The single instance *)

Lemma singleton_loaded : singleton loaded.
Proof. split; [done|]. eexists. split; [done|]. concrete_wf. Qed.

Lemma getInstance_of_singleton P : singleton P → getInstance P = (0, P).
Proof. intros [Hi _]. unfold getInstance. by rewrite Hi. Qed.






(** ** Drag over *)

(** C8: [dragOverHandler] calls [preventDefault] and adds the class
    [droppable] to its list when the kind the event's transfer channel
    declares, [types[0]], is ['text/plain']; when the event has no transfer
    channel or declares any other kind first, it does nothing at all.  In
    no case does it touch the store. *)
Theorem dragOverHandler_plain_text_only w :
  (declared_kind (event w) = Some "text/plain" →
   ∀ listEl, ul (target w) = Some listEl →
     ∃ w', dragOverHandler w = (w', Normal) ∧
       defaultPrevented (event w') = true ∧
       ul (target w') = Some (classList_add "droppable" listEl) ∧
       "droppable" ∈ classList_add "droppable" listEl ∧
       dataTransfer (event w') = dataTransfer (event w) ∧
       type (target w') = type (target w) ∧
       store w' = store w) ∧
  (declared_kind (event w) ≠ Some "text/plain" →
   dragOverHandler w = (w, Normal)) ∧
  store (dragOverHandler w).1 = store w.
Proof.
  unfold declared_kind, dragOverHandler.
  destruct (dataTransfer (event w)) as [dt|] eqn:Hdt; simpl.
  - split_and!.
    + intros Hk listEl Hul. rewrite bool_decide_eq_true_2, Hul by done.
      eexists. split; [done|]. simpl. split_and!; try done.
      unfold classList_add. case_decide; [done|].
      apply elem_of_app. right. by left.
    + intros Hk. by rewrite bool_decide_eq_false_2.
    + case_bool_decide; [|done]. by destruct (ul (target w)).
  - split_and!; done.
Qed.

Lemma dragOverHandler_plain_text_only_witness :
  (∃ w', dragOverHandler
           {| store := loaded;
              target := {| type := finished; ul := Some ["projects"] |};
              event := {| dataTransfer := Some {| types := ["text/plain"];
                                                  effectAllowed := "move" |};
                          defaultPrevented := false |} |} = (w', Normal) ∧
     defaultPrevented (event w') = true ∧
     ul (target w') = Some ["projects"; "droppable"] ∧
     store w' = loaded) ∧
  dragOverHandler
    {| store := loaded;
       target := {| type := finished; ul := Some ["projects"] |};
       event := {| dataTransfer := Some {| types := ["text/uri-list"];
                                           effectAllowed := "move" |};
                   defaultPrevented := false |} |}
  = ({| store := loaded;
        target := {| type := finished; ul := Some ["projects"] |};
        event := {| dataTransfer := Some {| types := ["text/uri-list"];
                                            effectAllowed := "move" |};
                    defaultPrevented := false |} |}, Normal).
Proof.
  split.
  - destruct (proj1 (dragOverHandler_plain_text_only
        {| store := loaded;
           target := {| type := finished; ul := Some ["projects"] |};
           event := {| dataTransfer := Some {| types := ["text/plain"];
                                               effectAllowed := "move" |};
                       defaultPrevented := false |} |})
        eq_refl ["projects"] eq_refl)
      as (w' & Hrun & Hp & Hul & _ & _ & _ & Hst).
    exists w'. split_and!; [done | done | | done].
    rewrite Hul. reflexivity.
  - apply (dragOverHandler_plain_text_only
        {| store := loaded;
           target := {| type := finished; ul := Some ["projects"] |};
           event := {| dataTransfer := Some {| types := ["text/uri-list"];
                                               effectAllowed := "move" |};
                       defaultPrevented := false |} |}).
    simpl. discriminate.
Defined.

(** Only the first declared kind counts: with ['text/plain'] second in
    [types] the handler does nothing. *)
Example dragOverHandler_second_kind_ignored :
  dragOverHandler
    {| store := loaded;
       target := {| type := active; ul := Some [] |};
       event := {| dataTransfer := Some {| types := ["text/html"; "text/plain"];
                                           effectAllowed := "move" |};
                   defaultPrevented := false |} |}
  = ({| store := loaded;
        target := {| type := active; ul := Some [] |};
        event := {| dataTransfer := Some {| types := ["text/html"; "text/plain"];
                                            effectAllowed := "move" |};
                    defaultPrevented := false |} |}, Normal).
Proof. reflexivity. Qed.


(** * The rest of the program *)

(** ** [trim] *)

Lemma trimStart_blank cps :
  forallb is_white cps = true → trimStart cps = [].
Proof.
  induction cps as [|c cps IH]; simpl; [done|].
  destruct (is_white c); simpl; [exact IH | done].
Qed.

Lemma trimStart_nonblank cps :
  forallb is_white cps = false →
  ∃ c rest, trimStart cps = c :: rest ∧ is_white c = false.
Proof.
  induction cps as [|c cps IH]; simpl; [done|].
  destruct (is_white c) eqn:Hc; simpl; [exact IH|].
  intros _. by exists c, cps.
Qed.

Lemma trimEnd_keeps_head c rest :
  is_white c = false → ∃ kept, trimEnd (c :: rest) = c :: kept.
Proof.
  intros Hc. simpl. destruct (trimEnd rest); rewrite ?Hc; eauto.
Qed.

Lemma utf16_length_cons c cps : 0 < utf16_length (c :: cps).
Proof. unfold utf16_length. simpl. destruct (c <? 65536)%N; lia. Qed.

(** Trimming leaves nothing exactly when the string is blank. *)
Lemma trim_length_blank s : (utf16_length (trim s) =? 0) = blank s.
Proof.
  unfold trim, blank. destruct (forallb is_white (code_points s)) eqn:Hb.
  - by rewrite (trimStart_blank _ Hb).
  - destruct (trimStart_nonblank _ Hb) as (c & rest & -> & Hc).
    destruct (trimEnd_keeps_head c rest Hc) as [kept ->].
    apply Nat.eqb_neq. pose proof (utf16_length_cons c kept). lia.
Qed.

(** The characters [trim] strips, one by one. *)
Lemma is_white_spec c :
  is_white c = true ↔
  c ∈ [9; 10; 11; 12; 13; 32; 160; 5760; 8192; 8193; 8194; 8195; 8196; 8197;
       8198; 8199; 8200; 8201; 8202; 8232; 8233; 8239; 8287; 12288; 65279]%N.
Proof.
  unfold is_white.
  rewrite orb_true_iff, bool_decide_eq_true, andb_true_iff, !N.leb_le.
  rewrite !elem_of_cons, !elem_of_nil. lia.
Qed.

Example code_points_samples :
  code_points "a b" = [97; 32; 98]%N ∧
  code_points ideographic_space = [12288%N] ∧
  code_points grinning_face = [128512%N] ∧
  js_length ideographic_space = 1 ∧
  js_length grinning_face = 2 ∧
  js_length "Dig it" = 6.
Proof. vm_compute. done. Qed.

Example trim_samples :
  trim (ideographic_space +:+ " Garden " +:+ ideographic_space)
  = code_points "Garden" ∧
  trim " a b " = code_points "a b" ∧
  blank (ideographic_space +:+ " ") = true ∧
  blank grinning_face = false.
Proof. vm_compute. done. Qed.

(** ** Comparing with NaN *)

Lemma leb_nan_r x : PrimFloat.leb x nan = false.
Proof.
  rewrite FloatAxioms.leb_spec. unfold SpecFloat.SFleb.
  replace (FloatOps.Prim2SF nan) with SpecFloat.S754_nan by reflexivity.
  by destruct (FloatOps.Prim2SF x).
Qed.

Lemma leb_nan_l x : PrimFloat.leb nan x = false.
Proof.
  rewrite FloatAxioms.leb_spec. unfold SpecFloat.SFleb.
  replace (FloatOps.Prim2SF nan) with SpecFloat.S754_nan by reflexivity.
  by destruct (FloatOps.Prim2SF x).
Qed.

(** A string of fewer than five code units is shorter than 5. *)
Lemma length_number_short s :
  js_length s < 5 → PrimFloat.leb 5 (length_number s) = false.
Proof.
  unfold length_number. generalize (js_length s). intros n Hn.
  do 5 (destruct n as [|n]; [reflexivity|]). lia.
Qed.

(** ** [validate] *)

(** [validate] accepts exactly when each check that applies passes. *)
Lemma validate_true toString v :
  validate toString v = true ↔
  (default false (required v) = true →
     blank (value_toString toString (value v)) = false) ∧
  (∀ m s, minLength v = Some m → value v = Str s →
     PrimFloat.leb m (length_number s) = true) ∧
  (∀ m s, maxLength v = Some m → value v = Str s →
     PrimFloat.leb (length_number s) m = true) ∧
  (∀ m n, min v = Some m → value v = Num n → PrimFloat.leb m n = true) ∧
  (∀ m n, max v = Some m → value v = Num n → PrimFloat.leb n m = true).
Proof.
  destruct v as [val req mnl mxl mn mx]. unfold validate. simpl.
  rewrite trim_length_blank.
  destruct (default false req), mnl, mxl, mn, mx, val; simpl;
    rewrite ?andb_true_iff, ?negb_true_iff;
    (split;
     [ intros H; split_and!; intros; simplify_eq; tauto
     | intros (H1 & H2 & H3 & H4 & H5); split_and?; eauto ]).
Qed.

(** X1: a required string is rejected when it is blank (empty, or made only
    of the white space and line terminators that [trim] strips, those
    beyond ASCII such as U+00A0, U+3000 or U+FEFF included), whatever else
    is asked of it; and when nothing but [required] is asked of a string,
    it is accepted exactly when it is not blank. *)
Theorem validate_required_string toString v s :
  value v = Str s → required v = Some true →
  (blank s = true → validate toString v = false) ∧
  (minLength v = None → maxLength v = None →
   validate toString v = negb (blank s)).
Proof.
  destruct v as [val req mnl mxl mn mx]. simpl. intros -> ->.
  unfold validate. simpl. rewrite trim_length_blank. split.
  - intros ->. simpl. by destruct mnl, mxl, mn, mx.
  - intros -> ->. by destruct mn, mx, (blank s).
Qed.

Lemma validate_required_string_witness :
  validate (λ _, "3")
    {| value := Str (ideographic_space +:+ " "); required := Some true;
       minLength := Some 1%float;
       maxLength := None; min := None; max := None |} = false ∧
  validate (λ _, "3")
    {| value := Str " a "; required := Some true; minLength := None;
       maxLength := None; min := Some 7%float; max := None |}
  = negb (blank " a ").
Proof.
  split.
  - refine (proj1 (validate_required_string (λ _, "3") _
                     (ideographic_space +:+ " ") _ _) _); reflexivity.
  - refine (proj2 (validate_required_string (λ _, "3") _ " a " _ _) _ _);
      reflexivity.
Defined.

(** X2: the length bounds apply to strings only and the numeric bounds to
    numbers only: [minLength] and [maxLength] never change the verdict on a
    number, [min] and [max] never change the verdict on a string. *)
Theorem validate_type_guards toString req mnl mxl mn mx :
  (∀ n, validate toString
          {| value := Num n; required := req; minLength := mnl;
             maxLength := mxl; min := mn; max := mx |}
        = validate toString
          {| value := Num n; required := req; minLength := None;
             maxLength := None; min := mn; max := mx |}) ∧
  (∀ s, validate toString
          {| value := Str s; required := req; minLength := mnl;
             maxLength := mxl; min := mn; max := mx |}
        = validate toString
          {| value := Str s; required := req; minLength := mnl;
             maxLength := mxl; min := None; max := None |}).
Proof.
  split; intros x; unfold validate; simpl.
  - by destruct mnl, mxl.
  - by destruct mn, mx.
Qed.

(** X3: constraints only ever reject.  If [v] asks for some of the things
    [v'] asks for, of the same value, then whatever [v'] accepts [v] accepts
    too; so dropping a constraint never turns a valid input invalid. *)
Theorem validate_loosens toString v v' :
  loosens v v' → validate toString v' = true → validate toString v = true.
Proof.
  intros (Hv & Hreq & Hmnl & Hmxl & Hmn & Hmx).
  rewrite !validate_true. rewrite Hv.
  intros (H1 & H2 & H3 & H4 & H5). split_and!; eauto.
Qed.

Lemma validate_loosens_witness :
  validate (λ _, "3")
    {| value := Num 3; required := None; minLength := None;
       maxLength := None; min := Some 1%float; max := None |} = true.
Proof.
  apply (validate_loosens (λ _, "3") _
    {| value := Num 3; required := Some true; minLength := None;
       maxLength := None; min := Some 1%float; max := Some 5%float |}).
  - unfold loosens. simpl. split_and!; by try done.
  - vm_compute. reflexivity.
Defined.

(** X4: NaN fails every numeric bound: a number that is NaN is rejected as
    soon as [min] or [max] is given. *)
Theorem validate_nan toString v :
  value v = Num nan → is_Some (min v) ∨ is_Some (max v) →
  validate toString v = false.
Proof.
  destruct v as [val req mnl mxl mn mx]. simpl. intros -> Hb.
  unfold validate. simpl.
  destruct mn as [a|], mx as [b|]; rewrite ?leb_nan_r, ?leb_nan_l, ?andb_false_r;
    try done.
  destruct Hb as [[? ?]|[? ?]]; done.
Qed.

Lemma validate_nan_witness :
  validate (λ _, "NaN")
    {| value := Num nan; required := Some true; minLength := None;
       maxLength := None; min := Some 1%float; max := Some 5%float |} = false.
Proof.
  apply validate_nan; [reflexivity | left; by eexists].
Defined.

(** ** The form: [getData] and [submitHandler] *)

(** What [getData] hands back went through the three validations. *)
Lemma getData_inv toString toNumber self t d n :
  getData toString toNumber self = Some (Some (t, d, n)) →
  ∃ raw,
    titleInputElement self = Some t ∧
    descriptionInputElement self = Some d ∧
    peopleInputElement self = Some raw ∧
    n = toNumber raw ∧
    blank t = false ∧
    blank d = false ∧
    PrimFloat.leb 5 (length_number d) = true ∧
    PrimFloat.leb 1 n = true ∧
    PrimFloat.leb n 5 = true.
Proof.
  unfold getData.
  destruct (titleInputElement self) as [t'|]; [|done].
  destruct (descriptionInputElement self) as [d'|]; [|done].
  destruct (peopleInputElement self) as [raw|]; [|done]. simpl.
  destruct (validate toString {| value := Str t' |}) eqn:Ht; [|done].
  destruct (validate toString {| value := Str d' |}) eqn:Hd; [|done].
  destruct (validate toString {| value := Num (toNumber raw) |}) eqn:Hp; [|done].
  simpl. intros [= <- <- <-]. exists raw.
  apply validate_true in Ht as (Ht & _).
  apply validate_true in Hd as (Hd1 & Hd2 & _).
  apply validate_true in Hp as (_ & _ & _ & Hp1 & Hp2).
  simpl in *. split_and!; eauto.
Qed.

(** With the three inputs in place [getData] returns, one way or the
    other. *)
Lemma getData_returns toString toNumber self t d raw :
  titleInputElement self = Some t →
  descriptionInputElement self = Some d →
  peopleInputElement self = Some raw →
  getData toString toNumber self = Some None ∨
  getData toString toNumber self = Some (Some (t, d, toNumber raw)).
Proof.
  intros Ht Hd Hp. unfold getData. rewrite Ht, Hd, Hp. simpl.
  destruct (_ || _); auto.
Qed.

(** A missing input makes [getData] throw. *)
Lemma getData_missing toString toNumber self :
  titleInputElement self = None ∨ descriptionInputElement self = None ∨
  peopleInputElement self = None →
  getData toString toNumber self = None.
Proof.
  unfold getData. intros [-> | [-> | ->]]; simpl; [done | |].
  - by destruct (titleInputElement self).
  - by destruct (titleInputElement self), (descriptionInputElement self).
Qed.

(** Input that fails a check makes [getData] return [undefined]. *)
Lemma getData_bad toString toNumber self t d raw :
  titleInputElement self = Some t →
  descriptionInputElement self = Some d →
  peopleInputElement self = Some raw →
  (blank t = true ∨ blank d = true ∨ js_length d < 5 ∨
   toNumber raw = nan ∨ PrimFloat.leb 1 (toNumber raw) = false ∨
   PrimFloat.leb (toNumber raw) 5 = false) →
  getData toString toNumber self = Some None.
Proof.
  intros Ht Hd Hp Hbad.
  destruct (getData_returns toString toNumber self t d raw Ht Hd Hp)
    as [Hu|Hok]; [done|]. exfalso.
  destruct (getData_inv _ _ _ _ _ _ Hok)
    as (raw' & _ & _ & _ & _ & Hbt & Hbd & Hlen & Hlo & Hhi).
  destruct Hbad as [H|[H|[H|[H|[H|H]]]]]; try congruence.
  - rewrite length_number_short in Hlen by done. done.
  - rewrite H, leb_nan_r in Hlo. done.
Qed.

(** X5: when [getData] returns a triple, it is what was typed -- the title
    and the description as they are, the people count as [+people] -- and
    it is valid: the title is not blank, the description is not blank and
    has at least five UTF-16 code units, and the people count lies between
    1 and 5 (so it is not NaN).  Blank is: nothing left by [trim], which
    strips the white space and line terminators of ECMAScript. *)
Theorem getData_valid toString toNumber self t d n :
  getData toString toNumber self = Some (Some (t, d, n)) →
  titleInputElement self = Some t ∧
  descriptionInputElement self = Some d ∧
  (toNumber <$> peopleInputElement self) = Some n ∧
  blank t = false ∧
  blank d = false ∧
  5 ≤ js_length d ∧
  PrimFloat.leb 1 n = true ∧ PrimFloat.leb n 5 = true ∧ n ≠ nan.
Proof.
  intros Hg.
  destruct (getData_inv _ _ _ _ _ _ Hg)
    as (raw & Ht & Hd & Hp & -> & Hbt & Hbd & Hlen & Hlo & Hhi).
  split_and!; try done.
  - by rewrite Hp.
  - destruct (decide (5 ≤ js_length d)) as [|Hshort]; [done|].
    rewrite length_number_short in Hlen by lia. done.
  - intros Hnan. rewrite Hnan, leb_nan_r in Hlo. done.
Qed.

Lemma getData_valid_witness :
  titleInputElement
    {| titleInputElement := Some "Garden"; descriptionInputElement := Some "Dig it";
       peopleInputElement := Some "3" |} = Some "Garden" ∧
  blank "Garden" = false ∧ 5 ≤ js_length "Dig it" ∧
  PrimFloat.leb 1 3 = true.
Proof.
  destruct (getData_valid (λ _, "3") (λ _, 3%float)
    {| titleInputElement := Some "Garden"; descriptionInputElement := Some "Dig it";
       peopleInputElement := Some "3" |} "Garden" "Dig it" 3%float)
    as (Ht & _ & _ & Hbt & _ & Hlen & Hlo & _).
  - vm_compute. reflexivity.
  - done.
Defined.

(** X6: [getData] throws when one of the three inputs is missing; with all
    three in place it returns [undefined] whenever the title is blank
    (nothing left by [trim], which strips the white space and line
    terminators of ECMAScript), the description is blank or shorter than
    five UTF-16 code units, or [+people] is NaN, below 1 or above 5. *)
Theorem getData_rejects toString toNumber self :
  ((titleInputElement self = None ∨ descriptionInputElement self = None ∨
    peopleInputElement self = None) →
   getData toString toNumber self = None) ∧
  (∀ t d raw,
     titleInputElement self = Some t →
     descriptionInputElement self = Some d →
     peopleInputElement self = Some raw →
     (blank t = true ∨ blank d = true ∨ js_length d < 5 ∨
      toNumber raw = nan ∨ PrimFloat.leb 1 (toNumber raw) = false ∨
      PrimFloat.leb (toNumber raw) 5 = false) →
     getData toString toNumber self = Some None).
Proof.
  split; [apply getData_missing|].
  intros t d raw. apply getData_bad.
Qed.

Lemma getData_rejects_witness :
  getData (λ _, "3") (λ _, 3%float)
    {| titleInputElement := Some "Garden"; descriptionInputElement := None;
       peopleInputElement := Some "3" |} = None ∧
  getData (λ _, "3") (λ _, 3%float)
    {| titleInputElement := Some "Garden"; descriptionInputElement := Some "Dig";
       peopleInputElement := Some "3" |} = Some None ∧
  getData (λ _, "3") (λ _, 3%float)
    {| titleInputElement := Some ideographic_space;
       descriptionInputElement := Some "Dig it";
       peopleInputElement := Some "3" |} = Some None.
Proof.
  split_and!.
  - apply getData_rejects. right. by left.
  - eapply (proj2 (getData_rejects (λ _, "3") (λ _, 3%float) _));
      [reflexivity | reflexivity | reflexivity |].
    right. right. left. vm_compute. lia.
  - eapply (proj2 (getData_rejects (λ _, "3") (λ _, 3%float) _));
      [reflexivity | reflexivity | reflexivity |].
    left. reflexivity.
Defined.

(** ** The store behind [projectState] *)

Lemma singleton_store_of P :
  singleton P →
  ∃ st, store_of P = Some st ∧ wf st ∧
        instances P = [this st] ∧ mem P = heap st.
Proof.
  intros (_ & self & Hs & Hwf). unfold store_of. rewrite Hs. simpl.
  by eexists.
Qed.

(** A method that returns on the store returns on the process, and the
    store it leaves is the store behind [projectState] afterwards. *)
Lemma on_instance_store method P st st' cs :
  singleton P → store_of P = Some st →
  method st = Some (st', cs) → wf st' →
  ∃ P', on_instance projectState method P = Some P' ∧
        store_of P' = Some st' ∧ singleton P'.
Proof.
  intros HP Hst Hrun Hwf'.
  destruct (singleton_store_of P HP) as (st0 & Hst0 & _ & Hi & Hm).
  rewrite Hst in Hst0. injection Hst0 as <-.
  destruct HP as (Hinst & _).
  unfold on_instance, projectState. simpl. rewrite Hi. simpl.
  replace {| heap := mem P; this := this st |} with st
    by (destruct st; simpl in *; congruence).
  rewrite Hrun. simpl. eexists. split; [done|]. split.
  - unfold store_of, projectState. simpl. by destruct st'.
  - split; [done|]. simpl. exists (this st'). split; [done|]. by destruct st'.
Qed.

Lemma call_on_instance_store method P st st' cs :
  singleton P → store_of P = Some st →
  method st = Some (st', cs) → wf st' →
  ∃ P', call_on_instance projectState method P = Some (P', completion_of cs) ∧
        store_of P' = Some st' ∧ singleton P'.
Proof.
  intros HP Hst Hrun Hwf'.
  destruct (singleton_store_of P HP) as (st0 & Hst0 & _ & Hi & Hm).
  rewrite Hst in Hst0. injection Hst0 as <-.
  destruct HP as (Hinst & _).
  unfold call_on_instance, projectState. simpl. rewrite Hi. simpl.
  replace {| heap := mem P; this := this st |} with st
    by (destruct st; simpl in *; congruence).
  rewrite Hrun. simpl. eexists. split; [done|]. split.
  - unfold store_of, projectState. simpl. by destruct st'.
  - split; [done|]. simpl. exists (this st'). split; [done|]. by destruct st'.
Qed.



(** X7: a submission that does not pass -- an input is missing, the title
    or the description is blank (nothing left by [trim], which strips the
    white space and line terminators of ECMAScript), the description is
    shorter than five UTF-16 code units, or [+people] is NaN or outside
    1..5 -- cancels the event's default action and does nothing else: the
    process and the three fields are as they were.  With an input missing
    the handler throws, otherwise it returns normally. *)
Theorem submitHandler_rejected toString toNumber rnd w :
  ((titleInputElement (input w) = None ∨
    descriptionInputElement (input w) = None ∨
    peopleInputElement (input w) = None) →
   submitHandler toString toNumber rnd w
   = ({| app := app w; input := input w; prevented := true |}, Throw)) ∧
  (∀ t d raw,
     titleInputElement (input w) = Some t →
     descriptionInputElement (input w) = Some d →
     peopleInputElement (input w) = Some raw →
     (blank t = true ∨ blank d = true ∨ js_length d < 5 ∨
      toNumber raw = nan ∨ PrimFloat.leb 1 (toNumber raw) = false ∨
      PrimFloat.leb (toNumber raw) 5 = false) →
     submitHandler toString toNumber rnd w
     = ({| app := app w; input := input w; prevented := true |}, Normal)).
Proof.
  split.
  - intros Hmiss. unfold submitHandler.
    by rewrite (getData_missing toString toNumber _ Hmiss).
  - intros t d raw Ht Hd Hp Hbad. unfold submitHandler.
    by rewrite (getData_bad toString toNumber _ t d raw Ht Hd Hp Hbad).
Qed.

Lemma submitHandler_rejected_witness :
  submitHandler (λ _, "NaN") (λ _, nan) "0.5"
    {| app := loaded;
       input := {| titleInputElement := Some "Garden";
                   descriptionInputElement := Some "Dig it";
                   peopleInputElement := Some "many" |};
       prevented := false |}
  = ({| app := loaded;
        input := {| titleInputElement := Some "Garden";
                    descriptionInputElement := Some "Dig it";
                    peopleInputElement := Some "many" |};
        prevented := true |}, Normal).
Proof.
  apply (proj2 (submitHandler_rejected (λ _, "NaN") (λ _, nan) "0.5"
      {| app := loaded;
         input := {| titleInputElement := Some "Garden";
                     descriptionInputElement := Some "Dig it";
                     peopleInputElement := Some "many" |};
         prevented := false |}) "Garden" "Dig it" "many");
    [reflexivity | reflexivity | reflexivity |].
  right. right. right. left. reflexivity.
Defined.



(** A listener that throws: the project is in the store, the fields are as
    typed, and the handler ends with the listener's exception. *)
Example submitHandler_listener_throws :
  (λ r, (r.2, input r.1, prevented r.1, projects_of (app r.1)))
    (submitHandler (λ _, "3") (λ _, 3%float) "0.5"
       {| app := {| mem := {| objs := []; arrs := [[]] |};
                    instances := [{| listeners := [thrower]; projects := 0 |}];
                    instance := Some 0 |};
          input := {| titleInputElement := Some "Garden";
                      descriptionInputElement := Some "Dig it";
                      peopleInputElement := Some "3" |};
          prevented := false |})
  = (Throw,
     {| titleInputElement := Some "Garden";
        descriptionInputElement := Some "Dig it";
        peopleInputElement := Some "3" |},
     true,
     Some [Project_new "0.5" "Garden" "Dig it" 3 Active]).
Proof. vm_compute. reflexivity. Qed.

(** ** The drop target: over, leave and drop *)

Lemma classList_add_elem token cl : token ∈ classList_add token cl.
Proof.
  unfold classList_add. case_decide; [done|].
  apply elem_of_app. right. by left.
Qed.

Lemma classList_add_twice token cl :
  classList_add token (classList_add token cl) = classList_add token cl.
Proof.
  unfold classList_add at 1. by rewrite decide_True by apply classList_add_elem.
Qed.

Lemma classList_remove_absent token cl :
  token ∉ cl → classList_remove token cl = cl.
Proof.
  intros Hn. unfold classList_remove. induction cl as [|t cl IH]; [done|].
  apply not_elem_of_cons in Hn as [Hne Hn].
  rewrite filter_cons_True by done. by rewrite IH.
Qed.

Lemma classList_remove_add token cl :
  token ∉ cl → classList_remove token (classList_add token cl) = cl.
Proof.
  intros Hn. unfold classList_add. rewrite decide_False by done.
  unfold classList_remove. rewrite filter_app.
  fold (classList_remove token cl). rewrite classList_remove_absent by done.
  rewrite filter_cons_False by (by intros []). by rewrite app_nil_r.
Qed.

Lemma classList_remove_gone token cl : token ∉ classList_remove token cl.
Proof.
  unfold classList_remove. intros Hin.
  apply list_elem_of_filter in Hin as [Hne _]. done.
Qed.

(** X9: [dragover] fires again and again while the pointer is over the
    list; handling it a second time changes nothing more.  In particular
    the class list never gets a second 'droppable'. *)
Theorem dragOverHandler_idempotent w :
  dragOverHandler (dragOverHandler w).1 = dragOverHandler w.
Proof.
  unfold dragOverHandler.
  destruct (dataTransfer (event w)) as [dt|] eqn:Hdt; simpl; [|by rewrite Hdt].
  case_bool_decide as Hk; simpl; [|by rewrite Hdt, bool_decide_eq_false_2].
  destruct (ul (target w)) as [listEl|] eqn:Hul; simpl.
  - rewrite Hdt, bool_decide_eq_true_2 by done. simpl.
    by rewrite classList_add_twice.
  - by rewrite Hdt, bool_decide_eq_true_2, Hul by done.
Qed.

(** X10: [dragLeaveHandler] takes 'droppable' off the list whatever the
    event is, keeps every other class in place and touches neither the
    store nor the event; so leaving after a drag-over puts a list that was
    not marked back exactly as it was. *)
Theorem dragLeaveHandler_clears w listEl :
  ul (target w) = Some listEl →
  (∃ w', dragLeaveHandler w = (w', Normal) ∧
     ul (target w') = Some (filter (λ t, t ≠ "droppable") listEl) ∧
     ("droppable" ∉ filter (λ t, t ≠ "droppable") listEl) ∧
     type (target w') = type (target w) ∧
     store w' = store w ∧ event w' = event w) ∧
  ("droppable" ∉ listEl →
     (dragLeaveHandler (dragOverHandler w).1).1
     = {| store := store w; target := target w;
          event := event (dragOverHandler w).1 |}).
Proof.
  intros Hul. split.
  - unfold dragLeaveHandler. rewrite Hul. eexists. split; [done|]. simpl.
    split_and!; try done. apply (classList_remove_gone "droppable").
  - intros Hn. unfold dragOverHandler, dragLeaveHandler.
    destruct (target w) as [ty u] eqn:Ht. simpl in Hul. subst u.
    destruct (dataTransfer (event w)) as [dt|]; simpl.
    + case_bool_decide; simpl.
      * by rewrite classList_remove_add.
      * rewrite Ht. simpl. by rewrite classList_remove_absent.
    + rewrite Ht. simpl. by rewrite classList_remove_absent.
Qed.

Lemma dragLeaveHandler_clears_witness :
  (dragLeaveHandler
     (dragOverHandler
        {| store := loaded;
           target := {| type := finished; ul := Some ["projects"] |};
           event := {| dataTransfer := Some {| types := ["text/plain"];
                                               effectAllowed := "move" |};
                       defaultPrevented := false |} |}).1).1
  = {| store := loaded;
       target := {| type := finished; ul := Some ["projects"] |};
       event := {| dataTransfer := Some {| types := ["text/plain"];
                                           effectAllowed := "move" |};
                   defaultPrevented := true |} |}.
Proof.
  refine (proj2 (dragLeaveHandler_clears
    {| store := loaded;
       target := {| type := finished; ul := Some ["projects"] |};
       event := {| dataTransfer := Some {| types := ["text/plain"];
                                           effectAllowed := "move" |};
                   defaultPrevented := false |} |} ["projects"] eq_refl) _).
  intros Hin. apply list_elem_of_singleton in Hin. discriminate.
Defined.

Lemma set_status_same p : set_status (status p) p = p.
Proof. by destruct p. Qed.

(** What [dropHandler] does once the event carries a transfer channel and
    the list has its [ul]: [moveProject] runs on the store behind
    [projectState], and the handler ends the way the notification does. *)
Lemma dropHandler_spec getData w dt listEl st :
  singleton (store w) → store_of (store w) = Some st →
  dataTransfer (event w) = Some dt → ul (target w) = Some listEl →
  ∃ P' st' cs,
    moveProject (getData dt "text/plain") (status_of (type (target w))) st
      = Some (st', cs) ∧
    dropHandler getData w
    = ({| store := P';
          target :=
            {| type := type (target w);
               ul := Some match completion_of cs with
                          | Normal => classList_remove "droppable" listEl
                          | Throw => listEl
                          end |};
          event := event w |}, completion_of cs) ∧
    singleton P' ∧ store_of P' = Some st'.
Proof.
  intros HP Hst Hdt Hul.
  destruct (singleton_store_of _ HP) as (st0 & Hst0 & Hwf & _).
  rewrite Hst in Hst0. injection Hst0 as <-.
  destruct (moveProject_returns (getData dt "text/plain")
              (status_of (type (target w))) st Hwf)
    as (st' & cs & Hrun & _ & _ & Hwf' & _).
  destruct (call_on_instance_store _ _ _ _ _ HP Hst Hrun Hwf')
    as (P' & HP' & Hst' & Hsing).
  exists P', st', cs. split; [done|].
  unfold dropHandler. rewrite Hdt, HP'.
  destruct (completion_of cs); [by rewrite Hul|].
  destruct (target w). simpl in *. by subst.
Qed.



(** A listener that throws: the move is done, 'droppable' stays on the
    list, and the handler ends with the listener's exception. *)
Example dropHandler_listener_throws :
  (λ r, (r.2, ul (target r.1), projects_of (store r.1)))
    (dropHandler (λ _ _, "0.2")
       {| store :=
            {| mem := {| objs := [Project_new "0.1" "A" "first" 1 Active;
                                  Project_new "0.2" "B" "second" 2 Active];
                         arrs := [[Some 0; Some 1]] |};
               instances := [{| listeners := [thrower]; projects := 0 |}];
               instance := Some 0 |};
          target := {| type := finished; ul := Some ["projects"; "droppable"] |};
          event := {| dataTransfer := Some {| types := ["text/plain"];
                                              effectAllowed := "move" |};
                      defaultPrevented := true |} |})
  = (Throw, Some ["projects"; "droppable"],
     Some [Project_new "0.1" "A" "first" 1 Active;
           Project_new "0.2" "B" "second" 2 Finished]).
Proof. vm_compute. reflexivity. Qed.

(** X12: in a process whose store is well formed, as long as the listeners
    do not write to the [Project] objects they are shown, a drop that
    carries a transfer channel, on a list that has its [ul], gives the
    first project whose id is the dropped one the status [Active] when the
    list is the active one and [Finished] when it is the finished one, and
    changes no other project, whether or not a listener throws; dropped on
    the list it is already in, the collection stays as it is and nobody is
    notified. *)
Theorem dropHandler_moves getData w dt listEl st before p after :
  singleton (store w) → store_of (store w) = Some st →
  Forall readonly (listeners (this st)) →
  dataTransfer (event w) = Some dt → ul (target w) = Some listEl →
  collection st = before ++ p :: after →
  Forall (λ q, id q ≠ getData dt "text/plain") before →
  id p = getData dt "text/plain" →
  ∃ w' st' ending,
    dropHandler getData w = (w', ending) ∧
    store_of (store w') = Some st' ∧
    (type (target w) = active →
       collection st' = before ++ set_status Active p :: after) ∧
    (type (target w) = finished →
       collection st' = before ++ set_status Finished p :: after) ∧
    ((type (target w) = active ∧ status p = Active) ∨
     (type (target w) = finished ∧ status p = Finished) →
       collection st' = collection st ∧ ending = Normal ∧
       store w' = store w).
Proof.
  intros HP Hst Hro Hdt Hul Hc Hb Hp.
  destruct (dropHandler_spec getData w dt listEl st HP Hst Hdt Hul)
    as (P' & st' & cs & Hrun & Hdrop & Hsing & Hst').
  destruct (singleton_store_of _ HP) as (st0 & Hst0 & Hwf & _).
  rewrite Hst in Hst0. injection Hst0 as <-.
  destruct (moveProject_first _ (status_of (type (target w))) st
              before p after Hwf Hc Hb Hp) as [Hsame Hdiff].
  assert (Hmoved : collection st'
            = before ++ set_status (status_of (type (target w))) p :: after).
  { destruct (decide (status p = status_of (type (target w)))) as [Heq|Hne].
    - rewrite (Hsame Heq) in Hrun. injection Hrun as <- <-.
      rewrite <- Heq, set_status_same. done.
    - destruct (Hdiff Hne) as (st2 & cs2 & Hrun2 & _ & _ & _ & _ & _ & K).
      rewrite Hrun in Hrun2. injection Hrun2 as <- <-.
      destruct (K Hro) as [-> _]. done. }
  eexists _, st', (completion_of cs). split; [exact Hdrop|]. simpl.
  split_and!; [done | | |].
  - intros Hty. by rewrite Hmoved, Hty.
  - intros Hty. by rewrite Hmoved, Hty.
  - intros Hhere.
    assert (Heq : status p = status_of (type (target w))).
    { destruct Hhere as [[-> ->] | [-> ->]]; done. }
    rewrite (Hsame Heq) in Hrun. injection Hrun as <- <-.
    split_and!; [done | done |].
    destruct (singleton_store_of _ Hsing) as (st3 & Hst3 & _ & Hi' & Hm').
    rewrite Hst' in Hst3. injection Hst3 as <-.
    destruct (singleton_store_of _ HP) as (st4 & Hst4 & _ & Hi & Hm).
    rewrite Hst in Hst4. injection Hst4 as <-.
    destruct HP as [Hinst _], Hsing as [Hinst' _].
    destruct (store w), P'. simpl in *. congruence.
Qed.

Lemma dropHandler_moves_witness :
  ∃ w' st' ending,
    dropHandler (λ _ _, "0.2")
      {| store :=
           {| mem := {| objs := [Project_new "0.1" "A" "first" 1 Active;
                                 Project_new "0.2" "B" "second" 2 Active];
                        arrs := [[Some 0; Some 1]] |};
              instances := [{| listeners := [reader]; projects := 0 |}];
              instance := Some 0 |};
         target := {| type := finished; ul := Some ["droppable"] |};
         event := {| dataTransfer := Some {| types := ["text/plain"];
                                             effectAllowed := "move" |};
                     defaultPrevented := true |} |} = (w', ending) ∧
    store_of (store w') = Some st' ∧
    collection st' = [Project_new "0.1" "A" "first" 1 Active]
                     ++ set_status Finished
                          (Project_new "0.2" "B" "second" 2 Active) :: [].
Proof.
  destruct (dropHandler_moves (λ _ _, "0.2")
    {| store :=
         {| mem := {| objs := [Project_new "0.1" "A" "first" 1 Active;
                               Project_new "0.2" "B" "second" 2 Active];
                      arrs := [[Some 0; Some 1]] |};
            instances := [{| listeners := [reader]; projects := 0 |}];
            instance := Some 0 |};
       target := {| type := finished; ul := Some ["droppable"] |};
       event := {| dataTransfer := Some {| types := ["text/plain"];
                                           effectAllowed := "move" |};
                   defaultPrevented := true |} |}
    {| types := ["text/plain"]; effectAllowed := "move" |} ["droppable"]
    {| heap := {| objs := [Project_new "0.1" "A" "first" 1 Active;
                           Project_new "0.2" "B" "second" 2 Active];
                  arrs := [[Some 0; Some 1]] |};
       this := {| listeners := [reader]; projects := 0 |} |}
    [Project_new "0.1" "A" "first" 1 Active]
    (Project_new "0.2" "B" "second" 2 Active) [])
    as (w' & st' & ending & Hrun & Hst & _ & Hc & _).
  - split; [done|]. eexists. split; [done|]. concrete_wf.
  - reflexivity.
  - simpl. repeat constructor.
  - reflexivity.
  - reflexivity.
  - reflexivity.
  - repeat constructor. simpl. discriminate.
  - reflexivity.
  - exists w', st', ending. split_and!; [done | done | by apply Hc].
Defined.

(** ** The two lists *)

Lemma filter_split {A} (f g : A → bool) (l : list A) :
  Forall (λ x, f x = negb (g x)) l →
  List.filter f l ++ List.filter g l ≡ₚ l.
Proof.
  induction 1 as [|x l Hx _ IH]; [done|]. simpl. rewrite Hx.
  destruct (g x); simpl.
  - rewrite <- Permutation_middle. by constructor.
  - by constructor.
Qed.

(** X13: the listeners of the active and of the finished list split what
    the store shows them: a slot that refers to a project is kept by exactly
    one of the two [filter]s, so the two filtered arrays together are a
    rearrangement of the snapshot, and each keeps the snapshot's order. *)
Theorem lists_partition_snapshot h activeList finishedList cells :
  type activeList = active → type finishedList = finished →
  Forall (good_slot h) cells →
  Forall (λ c, relevant h activeList c = negb (relevant h finishedList c))
    cells ∧
  List.filter (relevant h activeList) cells
    ++ List.filter (relevant h finishedList) cells ≡ₚ cells ∧
  List.filter (relevant h activeList) cells `sublist_of` cells ∧
  List.filter (relevant h finishedList) cells `sublist_of` cells.
Proof.
  intros Ha Hf Hg.
  assert (Hex : Forall (λ c, relevant h activeList c
                             = negb (relevant h finishedList c)) cells).
  { eapply Forall_impl; [exact Hg|]. intros [l|] Hl; [|done]. simpl in Hl.
    destruct (lookup_lt_is_Some_2 _ _ Hl) as [p Hp].
    unfold relevant. simpl. rewrite Hp, Ha, Hf.
    by destruct (status p). }
  split_and!; [done | by apply filter_split | |].
  - clear. induction cells as [|c cells IH]; simpl; [done|].
    destruct (relevant h activeList c); by constructor.
  - clear. induction cells as [|c cells IH]; simpl; [done|].
    destruct (relevant h finishedList c); by constructor.
Qed.

Lemma lists_partition_snapshot_witness :
  List.filter
    (relevant {| objs := [Project_new "0.1" "A" "first" 1 Active;
                          Project_new "0.2" "B" "second" 2 Finished;
                          Project_new "0.3" "C" "third" 3 Active];
                 arrs := [] |} {| type := active; ul := None |})
    [Some 0; Some 1; Some 2]
  ++ List.filter
    (relevant {| objs := [Project_new "0.1" "A" "first" 1 Active;
                          Project_new "0.2" "B" "second" 2 Finished;
                          Project_new "0.3" "C" "third" 3 Active];
                 arrs := [] |} {| type := finished; ul := None |})
    [Some 0; Some 1; Some 2]
  ≡ₚ [Some 0; Some 1; Some 2].
Proof.
  apply (lists_partition_snapshot
    {| objs := [Project_new "0.1" "A" "first" 1 Active;
                Project_new "0.2" "B" "second" 2 Finished;
                Project_new "0.3" "C" "third" 3 Active];
       arrs := [] |}
    {| type := active; ul := None |} {| type := finished; ul := None |}
    [Some 0; Some 1; Some 2]).
  - reflexivity.
  - reflexivity.
  - repeat constructor; simpl; lia.
Defined.

(** ** What the store accumulates *)

(** One request, seen from the store behind [projectState]. *)
Lemma serve_effect q P st cells :
  singleton P → store_of P = Some st → slots st = Some cells →
  ∃ P' st' cells',
    serve q P = Some (0, P') ∧ singleton P' ∧
    store_of P' = Some st' ∧ slots st' = Some cells' ∧
    listeners (this st') = listeners (this st) ++ registered [q] ∧
    length cells' = length cells + additions [q].
Proof.
  intros HP Hst Hs.
  destruct (singleton_store_of _ HP) as (st0 & Hst0 & Hwf & _).
  rewrite Hst in Hst0. injection Hst0 as <-.
  unfold serve. rewrite (getInstance_of_singleton P HP).
  destruct q as [| listenerFn | rnd t d n | pid s]; unfold additions; simpl.
  - exists P, st, cells. rewrite app_nil_r. split_and!; first [done | lia].
  - destruct (on_instance_store
                (λ st, Some (addListener listenerFn st, [])) P st
                (addListener listenerFn st) [] HP Hst eq_refl Hwf)
      as (P' & HP' & Hst' & Hsing).
    unfold projectState in HP'. simpl in HP'. rewrite HP'. simpl.
    exists P', (addListener listenerFn st), cells.
    split_and!; first [done | lia].
  - destruct (addProject_spec rnd t d n st cells Hwf Hs)
      as (st' & cs & Hrun & Hthis & Hs' & Hwf' & _).
    destruct (on_instance_store _ P st st' cs HP Hst Hrun Hwf')
      as (P' & HP' & Hst' & Hsing).
    unfold projectState in HP'. simpl in HP'. rewrite HP'. simpl.
    eexists P', st', _. split_and!; try done.
    + by rewrite Hthis, app_nil_r.
    + rewrite length_app. simpl. lia.
  - destruct (moveProject_returns pid s st Hwf)
      as (st' & cs & Hrun & Hthis & Hs' & Hwf' & _).
    destruct (on_instance_store _ P st st' cs HP Hst Hrun Hwf')
      as (P' & HP' & Hst' & Hsing).
    unfold projectState in HP'. simpl in HP'. rewrite HP'. simpl.
    exists P', st', cells. rewrite Hs', Hthis, app_nil_r.
    split_and!; first [done | lia].
Qed.

Lemma additions_cons q rest :
  additions (q :: rest) = additions [q] + additions rest.
Proof. by destruct q. Qed.

Lemma registered_cons q rest :
  registered (q :: rest) = registered [q] ++ registered rest.
Proof. by destruct q. Qed.

Lemma serve_all_effect qs : ∀ P st cells,
  singleton P → store_of P = Some st → slots st = Some cells →
  ∃ rs P' st' cells',
    serve_all qs P = Some (rs, P') ∧ singleton P' ∧
    store_of P' = Some st' ∧ slots st' = Some cells' ∧
    listeners (this st') = listeners (this st) ++ registered qs ∧
    length cells' = length cells + additions qs.
Proof.
  induction qs as [|q rest IH]; intros P st cells HP Hst Hs; simpl.
  - exists [], P, st, cells. rewrite app_nil_r. unfold additions. simpl.
    split_and!; first [done | lia].
  - destruct (serve_effect q P st cells HP Hst Hs)
      as (P1 & st1 & cells1 & -> & HP1 & Hst1 & Hs1 & Hl1 & Hn1). simpl.
    destruct (IH P1 st1 cells1 HP1 Hst1 Hs1)
      as (rs & P2 & st2 & cells2 & -> & HP2 & Hst2 & Hs2 & Hl2 & Hn2). simpl.
    exists (0 :: rs), P2, st2, cells2. split_and!; try done.
    + by rewrite Hl2, Hl1, <- app_assoc, <- registered_cons.
    + rewrite Hn2, Hn1, (additions_cons q rest). lia.
Qed.

(** X14: whatever a client calls on the class, in whatever order and with
    whatever listeners, those that throw included, and going on after a
    call that a listener's exception ended: the store's own code never
    fails, the store stays well formed and nothing is ever taken away.
    After the calls the store's listeners are exactly the ones that were
    registered, in the order of registration, and the collection holds
    exactly one project per [addProject] call, also for the calls a
    listener's exception ended. *)
Theorem store_accumulates qs :
  ∃ rs P st,
    serve_all qs loaded = Some (rs, P) ∧
    store_of P = Some st ∧
    wf st ∧
    listeners (this st) = registered qs ∧
    length (collection st) = additions qs.
Proof.
  destruct (serve_all_effect qs loaded new_store [] singleton_loaded
              eq_refl eq_refl)
    as (rs & P & st & cells & Hrun & HP & Hst & Hs & Hl & Hn).
  destruct (singleton_store_of _ HP) as (st0 & Hst0 & Hwf & _).
  rewrite Hst in Hst0. injection Hst0 as <-.
  exists rs, P, st. split_and!; try done.
  destruct (wf_slots st Hwf) as (cells' & Hs' & Hg & _).
  rewrite Hs in Hs'. injection Hs' as <-.
  rewrite (wf_collection st cells Hs), deref_length by done. done.
Qed.

(** A listener that throws at every notification takes nothing away: both
    projects are in the store. *)
Example store_accumulates_past_exceptions :
  (λ r, projects_of r.2) <$>
    serve_all [AddListener thrower; AddProject "0.1" "A" "first" 1;
               AddProject "0.2" "B" "second" 2; MoveProject "0.1" Finished]
      boot
  = Some (Some [Project_new "0.1" "A" "first" 1 Finished;
                Project_new "0.2" "B" "second" 2 Active]).
Proof. vm_compute. reflexivity. Qed.

(** ** How the store's operations compose *)

(** Either no project has the id, or there is a first one that has it. *)
Lemma first_with_id pid (l : list Project) :
  Forall (λ q, id q ≠ pid) l ∨
  ∃ before p after, l = before ++ p :: after ∧
    Forall (λ q, id q ≠ pid) before ∧ id p = pid.
Proof.
  induction l as [|q qs IH]; [by left|].
  destruct (decide (id q = pid)) as [Hq|Hq].
  - right. by exists [], q, qs.
  - destruct IH as [IH | (before & p & after & -> & Hb & Hp)].
    + left. by constructor.
    + right. exists (q :: before), p, after. split_and!; [done | | done].
      by constructor.
Qed.

Lemma set_status_back s p : set_status (status p) (set_status s p) = p.
Proof. by destruct p. Qed.

(** A move, whatever it finds, leaves a well-formed store with the same
    listeners in which the first project with the id, if there is one, has
    the new status; all ids are as before. *)
Lemma moveProject_outcome pid s st :
  wf st → Forall readonly (listeners (this st)) →
  ∃ st' cs, moveProject pid s st = Some (st', cs) ∧
    wf st' ∧ this st' = this st ∧
    map id (collection st') = map id (collection st) ∧
    (Forall (λ q, id q ≠ pid) (collection st') ∨
     ∃ before p after, collection st' = before ++ p :: after ∧
       Forall (λ q, id q ≠ pid) before ∧ id p = pid ∧ status p = s).
Proof.
  intros Hwf Hro.
  destruct (first_with_id pid (collection st))
    as [Hn | (before & p & after & Hc & Hb & Hp)].
  - rewrite (moveProject_none pid s st Hwf Hn). exists st, [].
    split_and!; try done. by left.
  - destruct (moveProject_first pid s st before p after Hwf Hc Hb Hp)
      as [Hsame Hdiff].
    destruct (decide (status p = s)) as [Heq|Hne].
    + rewrite (Hsame Heq). exists st, []. split_and!; try done.
      right. by exists before, p, after.
    + destruct (Hdiff Hne) as (st' & cs & -> & Hthis & _ & Hwf' & _ & _ & K).
      destruct (K Hro) as [Hc' _]. exists st', cs. split_and!; try done.
      * rewrite Hc', Hc, !map_app. done.
      * right. by exists before, (set_status s p), after.
Qed.

(** X15: as long as observers do not write to the [Project] objects they
    are shown, [moveProject] is idempotent: straight after
    [moveProject(id, s)], whatever that call found and however it ended, a
    second [moveProject(id, s)] changes nothing and notifies nobody. *)
Theorem moveProject_twice pid s st :
  wf st → Forall readonly (listeners (this st)) →
  ∃ st1 cs1,
    moveProject pid s st = Some (st1, cs1) ∧
    moveProject pid s st1 = Some (st1, []).
Proof.
  intros Hwf Hro.
  destruct (moveProject_outcome pid s st Hwf Hro)
    as (st1 & cs1 & Hrun & Hwf1 & _ & _ & Hcase).
  exists st1, cs1. split; [done|].
  destruct Hcase as [Hn | (before & p & after & Hc & Hb & Hp & Hs)].
  - by apply moveProject_none.
  - by apply (moveProject_first pid s st1 before p after Hwf1 Hc Hb Hp).
Qed.

Lemma moveProject_twice_witness :
  ∃ st1 cs1,
    moveProject "0.2" Finished
      {| heap := {| objs := [Project_new "0.1" "A" "first" 1 Active;
                             Project_new "0.2" "B" "second" 2 Active];
                    arrs := [[Some 0; Some 1]] |};
         this := {| listeners := [reader; scribbler]; projects := 0 |} |}
      = Some (st1, cs1) ∧
    moveProject "0.2" Finished st1 = Some (st1, []).
Proof.
  apply (moveProject_twice "0.2" Finished
    {| heap := {| objs := [Project_new "0.1" "A" "first" 1 Active;
                           Project_new "0.2" "B" "second" 2 Active];
                  arrs := [[Some 0; Some 1]] |};
       this := {| listeners := [reader; scribbler]; projects := 0 |} |}).
  - concrete_wf.
  - simpl. repeat constructor.
Defined.

(** X16: as long as observers do not write to the [Project] objects they
    are shown, moving a project to the other status and back restores the
    collection: the same projects with the same fields in the same order,
    behind the same references. *)
Theorem moveProject_there_and_back pid s st before p after :
  wf st → Forall readonly (listeners (this st)) →
  collection st = before ++ p :: after →
  Forall (λ q, id q ≠ pid) before → id p = pid → status p ≠ s →
  ∃ st1 cs1 st2 cs2,
    moveProject pid s st = Some (st1, cs1) ∧
    collection st1
    = before ++ Project_new (id p) (title p) (description p) (people p) s
             :: after ∧
    moveProject pid (status p) st1 = Some (st2, cs2) ∧
    collection st2 = collection st ∧
    slots st2 = slots st.
Proof.
  intros Hwf Hro Hc Hb Hp Hne.
  destruct (moveProject_first pid s st before p after Hwf Hc Hb Hp)
    as [_ Hdiff].
  destruct (Hdiff Hne)
    as (st1 & cs1 & Hrun1 & Hthis1 & Hs1 & Hwf1 & _ & _ & K1).
  destruct (K1 Hro) as [Hc1 _].
  destruct (moveProject_first pid (status p) st1 before (set_status s p) after
              Hwf1 Hc1 Hb Hp) as [_ Hdiff2].
  destruct Hdiff2 as (st2 & cs2 & Hrun2 & Hthis2 & Hs2 & _ & _ & _ & K2).
  { simpl. congruence. }
  rewrite Hthis1 in K2. destruct (K2 Hro) as [Hc2 _].
  exists st1, cs1, st2, cs2. split_and!; try done.
  - by rewrite Hc2, set_status_back, Hc.
  - by rewrite Hs2.
Qed.

Lemma moveProject_there_and_back_witness :
  ∃ st1 cs1 st2 cs2,
    moveProject "0.5" Finished
      {| heap := {| objs := [Project_new "0.5" "A" "first" 1 Active];
                    arrs := [[Some 0]] |};
         this := {| listeners := [reader; thrower]; projects := 0 |} |}
      = Some (st1, cs1) ∧
    collection st1 = [] ++ [Project_new "0.5" "A" "first" 1 Finished] ∧
    moveProject "0.5" Active st1 = Some (st2, cs2) ∧
    collection st2 = [Project_new "0.5" "A" "first" 1 Active] ∧
    slots st2 = Some [Some 0].
Proof.
  apply (moveProject_there_and_back "0.5" Finished
    {| heap := {| objs := [Project_new "0.5" "A" "first" 1 Active];
                  arrs := [[Some 0]] |};
       this := {| listeners := [reader; thrower]; projects := 0 |} |}
    [] (Project_new "0.5" "A" "first" 1 Active) []).
  - concrete_wf.
  - simpl. repeat constructor.
  - reflexivity.
  - constructor.
  - reflexivity.
  - discriminate.
Defined.

(** X17: as long as observers do not write to the [Project] objects they
    are shown, a project added under an id no other project has can be
    moved by that id straight away: [addProject] followed by [moveProject]
    with the new id and [Finished] leaves the old projects as they were and
    the new one, last, as [Finished]. *)
Theorem addProject_then_move rnd t d n st :
  wf st → Forall readonly (listeners (this st)) →
  rnd ∉ map id (collection st) →
  ∃ st1 cs1 st2 cs2,
    addProject rnd t d n st = Some (st1, cs1) ∧
    moveProject rnd Finished st1 = Some (st2, cs2) ∧
    collection st2 = collection st ++ [Project_new rnd t d n Finished].
Proof.
  intros Hwf Hro Hfresh.
  destruct (wf_slots st Hwf) as (cells & Hs & _).
  destruct (addProject_spec rnd t d n st cells Hwf Hs)
    as (st1 & cs1 & Hrun1 & Hthis1 & _ & Hwf1 & _ & _ & K1).
  destruct (K1 Hro) as [Hc1 _].
  assert (Hb : Forall (λ q, id q ≠ rnd) (collection st)).
  { apply Forall_forall. intros q Hq Heq. apply Hfresh.
    rewrite <- Heq. by apply list_elem_of_fmap_2. }
  destruct (moveProject_first rnd Finished st1 (collection st)
              (Project_new rnd t d n Active) [] Hwf1 Hc1 Hb eq_refl)
    as [_ Hdiff].
  destruct Hdiff as (st2 & cs2 & Hrun2 & _ & _ & _ & _ & _ & K2); [done|].
  rewrite Hthis1 in K2. destruct (K2 Hro) as [Hc2 _].
  by exists st1, cs1, st2, cs2.
Qed.

Lemma addProject_then_move_witness :
  ∃ st1 cs1 st2 cs2,
    addProject "0.7" "T" "D" 3
      {| heap := {| objs := [Project_new "0.1" "A" "first" 1 Active];
                    arrs := [[Some 0]] |};
         this := {| listeners := [reader]; projects := 0 |} |}
      = Some (st1, cs1) ∧
    moveProject "0.7" Finished st1 = Some (st2, cs2) ∧
    collection st2 = [Project_new "0.1" "A" "first" 1 Active]
                     ++ [Project_new "0.7" "T" "D" 3 Finished].
Proof.
  apply (addProject_then_move "0.7" "T" "D" 3
    {| heap := {| objs := [Project_new "0.1" "A" "first" 1 Active];
                  arrs := [[Some 0]] |};
       this := {| listeners := [reader]; projects := 0 |} |}).
  - concrete_wf.
  - simpl. repeat constructor.
  - simpl. intros Hin. apply list_elem_of_singleton in Hin. discriminate.
Defined.

(** X18: as long as observers do not write to the [Project] objects they
    are shown, distinct ids stay distinct.  In a store whose ids are
    pairwise distinct, no [moveProject] changes any id, and an [addProject]
    whose draw is not among the ids keeps them pairwise distinct. *)
Theorem unique_ids_kept st :
  wf st → Forall readonly (listeners (this st)) →
  NoDup (map id (collection st)) →
  (∀ pid s, ∃ st' cs,
     moveProject pid s st = Some (st', cs) ∧
     map id (collection st') = map id (collection st) ∧
     NoDup (map id (collection st'))) ∧
  (∀ rnd t d n, rnd ∉ map id (collection st) →
     ∃ st' cs,
       addProject rnd t d n st = Some (st', cs) ∧
       map id (collection st') = map id (collection st) ++ [rnd] ∧
       NoDup (map id (collection st'))).
Proof.
  intros Hwf Hro Hnd. split.
  - intros pid s.
    destruct (moveProject_outcome pid s st Hwf Hro)
      as (st' & cs & Hrun & _ & _ & Hids & _).
    exists st', cs. by rewrite Hids.
  - intros rnd t d n Hfresh.
    destruct (wf_slots st Hwf) as (cells & Hs & _).
    destruct (addProject_spec rnd t d n st cells Hwf Hs)
      as (st' & cs & Hrun & _ & _ & _ & _ & _ & K).
    destruct (K Hro) as [Hc _]. exists st', cs.
    rewrite Hc, map_app. simpl. split_and!; [done | done |].
    apply NoDup_app. split_and!; [done | | apply NoDup_singleton].
    intros x Hx Hin. apply list_elem_of_singleton in Hin as ->. done.
Qed.

Lemma unique_ids_kept_witness :
  ∃ st' cs,
    addProject "0.7" "T" "D" 3
      {| heap := {| objs := [Project_new "0.1" "A" "first" 1 Active];
                    arrs := [[Some 0]] |};
         this := {| listeners := [reader]; projects := 0 |} |}
      = Some (st', cs) ∧
    map id (collection st') = ["0.1"] ++ ["0.7"] ∧
    NoDup (map id (collection st')).
Proof.
  apply (proj2 (unique_ids_kept
    {| heap := {| objs := [Project_new "0.1" "A" "first" 1 Active];
                  arrs := [[Some 0]] |};
       this := {| listeners := [reader]; projects := 0 |} |}
    ltac:(concrete_wf) ltac:(simpl; repeat constructor)
    ltac:(simpl; apply NoDup_singleton)) "0.7" "T" "D" 3%float).
  simpl. intros Hin. apply list_elem_of_singleton in Hin. discriminate.
Defined.

(** ** One array per listener *)

Lemma call_listener_fresh a listenerFn h cells :
  arrs h !! a = Some cells →
  ∃ h' c, call_listener a listenerFn h = Some (h', c) ∧
    arrs h' !! a = Some cells ∧
    items c = length (arrs h) ∧
    length (arrs h) < length (arrs h').
Proof.
  intros Ha. destruct (slice_fresh a h cells Ha) as [Hs Hne].
  pose proof (lookup_lt_Some _ _ _ Ha) as Hlt.
  unfold call_listener. rewrite Hs. simpl. eexists _, _. split; [done|].
  simpl.
  destruct (mutations_grow a (length (arrs h))
              (listenerFn {| objs := objs h; arrs := arrs h ++ [cells] |}
                 (length (arrs h))).1
              {| objs := objs h; arrs := arrs h ++ [cells] |} Hne)
    as (Hsame & _ & Hlen).
  { simpl. rewrite length_app. lia. }
  simpl in Hsame, Hlen. rewrite length_app in Hlen. simpl in Hlen.
  split_and!; [|done|lia].
  rewrite Hsame. by rewrite lookup_app_l.
Qed.

Lemma for_listeners_fresh a ls : ∀ h cells,
  arrs h !! a = Some cells →
  ∃ h' cs, for_listeners a ls h = Some (h', cs) ∧
    length (arrs h) ≤ length (arrs h') ∧
    Forall (λ c, length (arrs h) ≤ items c) cs ∧
    NoDup (map items cs).
Proof.
  induction ls as [|listenerFn rest IH]; intros h cells Ha; simpl.
  - eexists _, _. split; [done|]. split_and!; [done | constructor | constructor].
  - destruct (call_listener_fresh a listenerFn h cells Ha)
      as (h1 & c & -> & Ha1 & Hi & Hlt). simpl.
    destruct (outcome c).
    + destruct (IH h1 cells Ha1) as (h2 & cs & -> & Hle & Hall & Hnd). simpl.
      eexists _, _. split; [done|]. split_and!.
      * lia.
      * constructor; [lia|].
        eapply Forall_impl; [exact Hall|]. intros c' Hc'. simpl in Hc'. lia.
      * simpl. constructor; [|done]. intros Hin.
        apply list_elem_of_fmap in Hin as (c' & Heq & Hc').
        pose proof (proj1 (Forall_forall _ _) Hall c' Hc') as Hge.
        simpl in Hge. lia.
    + eexists _, _. split; [done|]. split_and!.
      * lia.
      * constructor; [lia | constructor].
      * simpl. apply NoDup_singleton.
Qed.

(** X19: every call made during a notification hands over an array of its
    own: the arrays passed to the listeners are pairwise different, none of
    them existed before the mutation, and none is the store's array.  This
    holds for [addProject] and for [moveProject], with any listeners. *)
Theorem notification_arrays_fresh st :
  wf st →
  (∀ rnd t d n, ∃ st' cs,
     addProject rnd t d n st = Some (st', cs) ∧
     NoDup (map items cs) ∧
     Forall (λ c, length (arrs (heap st)) ≤ items c ∧
                  items c ≠ projects (this st)) cs) ∧
  (∀ pid s, ∃ st' cs,
     moveProject pid s st = Some (st', cs) ∧
     NoDup (map items cs) ∧
     Forall (λ c, length (arrs (heap st)) ≤ items c ∧
                  items c ≠ projects (this st)) cs).
Proof.
  intros Hwf. destruct (wf_slots st Hwf) as (cells & Hs & Hg & Hnd).
  pose proof Hs as Hs0. unfold slots in Hs0.
  pose proof (lookup_lt_Some _ _ _ Hs0) as Hlt.
  assert (Hfin : ∀ (cs0 : list Call) n0,
    n0 = length (arrs (heap st)) →
    Forall (λ c, n0 ≤ items c) cs0 →
    Forall (λ c, length (arrs (heap st)) ≤ items c ∧
                 items c ≠ projects (this st)) cs0).
  { intros cs0 n0 -> Hall. eapply Forall_impl; [exact Hall|].
    intros c Hc. simpl in Hc. lia. }
  split.
  - intros rnd t d n. unfold addProject. rewrite Hs0. simpl.
    destruct (for_listeners_fresh (projects (this st)) (listeners (this st))
      {| objs := objs (heap st) ++ [Project_new rnd t d n Active];
         arrs := <[projects (this st) :=
                   cells ++ [Some (length (objs (heap st)))]]>
                   (arrs (heap st)) |}
      (cells ++ [Some (length (objs (heap st)))]))
      as (h' & cs & -> & _ & Hall & Hnd').
    { simpl. by apply list_lookup_insert_eq. }
    simpl. eexists _, _. split; [done|]. split; [done|].
    eapply Hfin; [|exact Hall]. simpl. by rewrite length_insert.
  - intros pid s.
    destruct (first_with_id pid (collection st))
      as [Hn | (before & p & after & Hc & Hb & Hp)].
    + rewrite (moveProject_none pid s st Hwf Hn). exists st, [].
      split_and!; [done | constructor | constructor].
    + destruct (moveProject_first pid s st before p after Hwf Hc Hb Hp)
        as [Hsame _].
      destruct (decide (status p = s)) as [Heq|Hne].
      * rewrite (Hsame Heq). exists st, [].
        split_and!; [done | constructor | constructor].
      * rewrite (wf_collection st cells Hs) in Hc.
        destruct (find_id_first _ pid cells before p after Hg Hc Hb Hp)
          as (l & Hf & Hl & _).
        unfold moveProject. rewrite Hs0. simpl. rewrite Hf. simpl.
        rewrite Hl. simpl. rewrite bool_decide_eq_true_2 by done.
        unfold updateListeners.
        destruct (for_listeners_fresh (projects (this st))
          (listeners (this st))
          {| objs := <[l := set_status s p]> (objs (heap st));
             arrs := arrs (heap st) |} cells Hs0)
          as (h' & cs & -> & _ & Hall & Hnd').
        simpl. eexists _, _. split; [done|]. split; [done|].
        eapply Hfin; [|exact Hall]. done.
Qed.

Lemma notification_arrays_fresh_witness :
  ∃ st' cs,
    addProject "0.5" "T" "D" 3 (register [scribbler; finisher; reader] new_store)
      = Some (st', cs) ∧
    NoDup (map items cs) ∧
    Forall (λ c, 1 ≤ items c ∧ items c ≠ 0) cs.
Proof.
  apply (proj1 (notification_arrays_fresh
    (register [scribbler; finisher; reader] new_store) ltac:(concrete_wf))).
Defined.

(** ** A new project and the two lists *)




